(** * Game lobby: room and player membership protocol

    A shallow embedding of the lobby component [GameLobby] (hostRoom,
    joinRoom, leaveRoom, startGame, fetchPlayers, the realtime handlers,
    generateRoomCode) together with the two tables of the migration
    ([public.rooms], [public.players]) and the store operations the component
    issues against them. *)

From Stdlib Require Import List String Ascii ZArith Lia Bool Sorted Permutation.
Import ListNotations.
Open Scope Z_scope.

(* ------------------------------------------------------------------------- *)
(** ** Strings: the JavaScript string methods the component uses *)

(** A JavaScript string is a sequence of UTF-16 code units; [js] reads a
    Rocq string literal, one code unit per character. *)
Definition jsstring := list Z.

Definition js (s : string) : jsstring :=
  map (fun a => Z.of_nat (nat_of_ascii a)) (list_ascii_of_string s).

(** [===] on strings. *)
Definition jsstr_eqb (s t : jsstring) : bool := if list_eq_dec Z.eq_dec s t then true else false.

Definition is_high_surrogate (u : Z) : bool := (0xD800 <=? u) && (u <=? 0xDBFF).
Definition is_low_surrogate (u : Z) : bool := (0xDC00 <=? u) && (u <=? 0xDFFF).
Definition is_surrogate (u : Z) : bool := (0xD800 <=? u) && (u <=? 0xDFFF).

(** The code points of a string: a high surrogate followed by a low
    surrogate is one supplementary code point; every other unit, a lone
    surrogate included, stands for itself. *)
Fixpoint code_points (s : jsstring) : list Z :=
  match s with
  | [] => []
  | u :: rest =>
      if is_high_surrogate u then
        match rest with
        | v :: rest' =>
            if is_low_surrogate v then
              (0x10000 + (u - 0xD800) * 0x400 + (v - 0xDC00)) :: code_points rest'
            else u :: code_points rest
        | [] => [u]
        end
      else u :: code_points rest
  end.

(** The UTF-16 encoding of one code point. *)
Definition utf16 (cp : Z) : jsstring :=
  if (0x10000 <=? cp) && (cp <=? 0x10FFFF) then
    [0xD800 + (cp - 0x10000) / 0x400; 0xDC00 + (cp - 0x10000) mod 0x400]
  else [cp].

(** The uppercase mapping of the Unicode Character Database (Unicode 14):
    the simple mappings of UnicodeData.txt and the unconditional entries of
    SpecialCasing.txt, the mapping [String.prototype.toUpperCase] uses.
    [upper_special] lists the code points mapped to several code points. *)
Definition upper_special : list (Z * list Z) := [
  (0xDF, [0x53; 0x53]); (0x149, [0x2BC; 0x4E]); (0x1F0, [0x4A; 0x30C]); (0x390, [0x399; 0x308; 0x301]);
  (0x3B0, [0x3A5; 0x308; 0x301]); (0x587, [0x535; 0x552]); (0x1E96, [0x48; 0x331]); (0x1E97, [0x54; 0x308]);
  (0x1E98, [0x57; 0x30A]); (0x1E99, [0x59; 0x30A]); (0x1E9A, [0x41; 0x2BE]); (0x1F50, [0x3A5; 0x313]);
  (0x1F52, [0x3A5; 0x313; 0x300]); (0x1F54, [0x3A5; 0x313; 0x301]); (0x1F56, [0x3A5; 0x313; 0x342]); (0x1F80, [0x1F08; 0x399]);
  (0x1F81, [0x1F09; 0x399]); (0x1F82, [0x1F0A; 0x399]); (0x1F83, [0x1F0B; 0x399]); (0x1F84, [0x1F0C; 0x399]);
  (0x1F85, [0x1F0D; 0x399]); (0x1F86, [0x1F0E; 0x399]); (0x1F87, [0x1F0F; 0x399]); (0x1F88, [0x1F08; 0x399]);
  (0x1F89, [0x1F09; 0x399]); (0x1F8A, [0x1F0A; 0x399]); (0x1F8B, [0x1F0B; 0x399]); (0x1F8C, [0x1F0C; 0x399]);
  (0x1F8D, [0x1F0D; 0x399]); (0x1F8E, [0x1F0E; 0x399]); (0x1F8F, [0x1F0F; 0x399]); (0x1F90, [0x1F28; 0x399]);
  (0x1F91, [0x1F29; 0x399]); (0x1F92, [0x1F2A; 0x399]); (0x1F93, [0x1F2B; 0x399]); (0x1F94, [0x1F2C; 0x399]);
  (0x1F95, [0x1F2D; 0x399]); (0x1F96, [0x1F2E; 0x399]); (0x1F97, [0x1F2F; 0x399]); (0x1F98, [0x1F28; 0x399]);
  (0x1F99, [0x1F29; 0x399]); (0x1F9A, [0x1F2A; 0x399]); (0x1F9B, [0x1F2B; 0x399]); (0x1F9C, [0x1F2C; 0x399]);
  (0x1F9D, [0x1F2D; 0x399]); (0x1F9E, [0x1F2E; 0x399]); (0x1F9F, [0x1F2F; 0x399]); (0x1FA0, [0x1F68; 0x399]);
  (0x1FA1, [0x1F69; 0x399]); (0x1FA2, [0x1F6A; 0x399]); (0x1FA3, [0x1F6B; 0x399]); (0x1FA4, [0x1F6C; 0x399]);
  (0x1FA5, [0x1F6D; 0x399]); (0x1FA6, [0x1F6E; 0x399]); (0x1FA7, [0x1F6F; 0x399]); (0x1FA8, [0x1F68; 0x399]);
  (0x1FA9, [0x1F69; 0x399]); (0x1FAA, [0x1F6A; 0x399]); (0x1FAB, [0x1F6B; 0x399]); (0x1FAC, [0x1F6C; 0x399]);
  (0x1FAD, [0x1F6D; 0x399]); (0x1FAE, [0x1F6E; 0x399]); (0x1FAF, [0x1F6F; 0x399]); (0x1FB2, [0x1FBA; 0x399]);
  (0x1FB3, [0x391; 0x399]); (0x1FB4, [0x386; 0x399]); (0x1FB6, [0x391; 0x342]); (0x1FB7, [0x391; 0x342; 0x399]);
  (0x1FBC, [0x391; 0x399]); (0x1FC2, [0x1FCA; 0x399]); (0x1FC3, [0x397; 0x399]); (0x1FC4, [0x389; 0x399]);
  (0x1FC6, [0x397; 0x342]); (0x1FC7, [0x397; 0x342; 0x399]); (0x1FCC, [0x397; 0x399]); (0x1FD2, [0x399; 0x308; 0x300]);
  (0x1FD3, [0x399; 0x308; 0x301]); (0x1FD6, [0x399; 0x342]); (0x1FD7, [0x399; 0x308; 0x342]); (0x1FE2, [0x3A5; 0x308; 0x300]);
  (0x1FE3, [0x3A5; 0x308; 0x301]); (0x1FE4, [0x3A1; 0x313]); (0x1FE6, [0x3A5; 0x342]); (0x1FE7, [0x3A5; 0x308; 0x342]);
  (0x1FF2, [0x1FFA; 0x399]); (0x1FF3, [0x3A9; 0x399]); (0x1FF4, [0x38F; 0x399]); (0x1FF6, [0x3A9; 0x342]);
  (0x1FF7, [0x3A9; 0x342; 0x399]); (0x1FFC, [0x3A9; 0x399]); (0xFB00, [0x46; 0x46]); (0xFB01, [0x46; 0x49]);
  (0xFB02, [0x46; 0x4C]); (0xFB03, [0x46; 0x46; 0x49]); (0xFB04, [0x46; 0x46; 0x4C]); (0xFB05, [0x53; 0x54]);
  (0xFB06, [0x53; 0x54]); (0xFB13, [0x544; 0x546]); (0xFB14, [0x544; 0x535]); (0xFB15, [0x544; 0x53B]);
  (0xFB16, [0x54E; 0x546]); (0xFB17, [0x544; 0x53D])].

(** [(lo, hi, step, delta)]: every code point [c] of [lo..hi] with
    [c - lo] a multiple of [step] is mapped to [c + delta]. *)
Definition upper_runs : list (Z * Z * Z * Z) := [
  (0x61, 0x7A, 1, -32); (0xB5, 0xB5, 1, 743); (0xE0, 0xF6, 1, -32); (0xF8, 0xFE, 1, -32);
  (0xFF, 0xFF, 1, 121); (0x101, 0x12F, 2, -1); (0x131, 0x131, 1, -232); (0x133, 0x137, 2, -1);
  (0x13A, 0x148, 2, -1); (0x14B, 0x177, 2, -1); (0x17A, 0x17E, 2, -1); (0x17F, 0x17F, 1, -300);
  (0x180, 0x180, 1, 195); (0x183, 0x185, 2, -1); (0x188, 0x188, 1, -1); (0x18C, 0x18C, 1, -1);
  (0x192, 0x192, 1, -1); (0x195, 0x195, 1, 97); (0x199, 0x199, 1, -1); (0x19A, 0x19A, 1, 163);
  (0x19E, 0x19E, 1, 130); (0x1A1, 0x1A5, 2, -1); (0x1A8, 0x1A8, 1, -1); (0x1AD, 0x1AD, 1, -1);
  (0x1B0, 0x1B0, 1, -1); (0x1B4, 0x1B6, 2, -1); (0x1B9, 0x1B9, 1, -1); (0x1BD, 0x1BD, 1, -1);
  (0x1BF, 0x1BF, 1, 56); (0x1C5, 0x1C5, 1, -1); (0x1C6, 0x1C6, 1, -2); (0x1C8, 0x1C8, 1, -1);
  (0x1C9, 0x1C9, 1, -2); (0x1CB, 0x1CB, 1, -1); (0x1CC, 0x1CC, 1, -2); (0x1CE, 0x1DC, 2, -1);
  (0x1DD, 0x1DD, 1, -79); (0x1DF, 0x1EF, 2, -1); (0x1F2, 0x1F2, 1, -1); (0x1F3, 0x1F3, 1, -2);
  (0x1F5, 0x1F5, 1, -1); (0x1F9, 0x21F, 2, -1); (0x223, 0x233, 2, -1); (0x23C, 0x23C, 1, -1);
  (0x23F, 0x240, 1, 10815); (0x242, 0x242, 1, -1); (0x247, 0x24F, 2, -1); (0x250, 0x250, 1, 10783);
  (0x251, 0x251, 1, 10780); (0x252, 0x252, 1, 10782); (0x253, 0x253, 1, -210); (0x254, 0x254, 1, -206);
  (0x256, 0x257, 1, -205); (0x259, 0x259, 1, -202); (0x25B, 0x25B, 1, -203); (0x25C, 0x25C, 1, 42319);
  (0x260, 0x260, 1, -205); (0x261, 0x261, 1, 42315); (0x263, 0x263, 1, -207); (0x265, 0x265, 1, 42280);
  (0x266, 0x266, 1, 42308); (0x268, 0x268, 1, -209); (0x269, 0x269, 1, -211); (0x26A, 0x26A, 1, 42308);
  (0x26B, 0x26B, 1, 10743); (0x26C, 0x26C, 1, 42305); (0x26F, 0x26F, 1, -211); (0x271, 0x271, 1, 10749);
  (0x272, 0x272, 1, -213); (0x275, 0x275, 1, -214); (0x27D, 0x27D, 1, 10727); (0x280, 0x280, 1, -218);
  (0x282, 0x282, 1, 42307); (0x283, 0x283, 1, -218); (0x287, 0x287, 1, 42282); (0x288, 0x288, 1, -218);
  (0x289, 0x289, 1, -69); (0x28A, 0x28B, 1, -217); (0x28C, 0x28C, 1, -71); (0x292, 0x292, 1, -219);
  (0x29D, 0x29D, 1, 42261); (0x29E, 0x29E, 1, 42258); (0x345, 0x345, 1, 84); (0x371, 0x373, 2, -1);
  (0x377, 0x377, 1, -1); (0x37B, 0x37D, 1, 130); (0x3AC, 0x3AC, 1, -38); (0x3AD, 0x3AF, 1, -37);
  (0x3B1, 0x3C1, 1, -32); (0x3C2, 0x3C2, 1, -31); (0x3C3, 0x3CB, 1, -32); (0x3CC, 0x3CC, 1, -64);
  (0x3CD, 0x3CE, 1, -63); (0x3D0, 0x3D0, 1, -62); (0x3D1, 0x3D1, 1, -57); (0x3D5, 0x3D5, 1, -47);
  (0x3D6, 0x3D6, 1, -54); (0x3D7, 0x3D7, 1, -8); (0x3D9, 0x3EF, 2, -1); (0x3F0, 0x3F0, 1, -86);
  (0x3F1, 0x3F1, 1, -80); (0x3F2, 0x3F2, 1, 7); (0x3F3, 0x3F3, 1, -116); (0x3F5, 0x3F5, 1, -96);
  (0x3F8, 0x3F8, 1, -1); (0x3FB, 0x3FB, 1, -1); (0x430, 0x44F, 1, -32); (0x450, 0x45F, 1, -80);
  (0x461, 0x481, 2, -1); (0x48B, 0x4BF, 2, -1); (0x4C2, 0x4CE, 2, -1); (0x4CF, 0x4CF, 1, -15);
  (0x4D1, 0x52F, 2, -1); (0x561, 0x586, 1, -48); (0x10D0, 0x10FA, 1, 3008); (0x10FD, 0x10FF, 1, 3008);
  (0x13F8, 0x13FD, 1, -8); (0x1C80, 0x1C80, 1, -6254); (0x1C81, 0x1C81, 1, -6253); (0x1C82, 0x1C82, 1, -6244);
  (0x1C83, 0x1C84, 1, -6242); (0x1C85, 0x1C85, 1, -6243); (0x1C86, 0x1C86, 1, -6236); (0x1C87, 0x1C87, 1, -6181);
  (0x1C88, 0x1C88, 1, 35266); (0x1D79, 0x1D79, 1, 35332); (0x1D7D, 0x1D7D, 1, 3814); (0x1D8E, 0x1D8E, 1, 35384);
  (0x1E01, 0x1E95, 2, -1); (0x1E9B, 0x1E9B, 1, -59); (0x1EA1, 0x1EFF, 2, -1); (0x1F00, 0x1F07, 1, 8);
  (0x1F10, 0x1F15, 1, 8); (0x1F20, 0x1F27, 1, 8); (0x1F30, 0x1F37, 1, 8); (0x1F40, 0x1F45, 1, 8);
  (0x1F51, 0x1F57, 2, 8); (0x1F60, 0x1F67, 1, 8); (0x1F70, 0x1F71, 1, 74); (0x1F72, 0x1F75, 1, 86);
  (0x1F76, 0x1F77, 1, 100); (0x1F78, 0x1F79, 1, 128); (0x1F7A, 0x1F7B, 1, 112); (0x1F7C, 0x1F7D, 1, 126);
  (0x1FB0, 0x1FB1, 1, 8); (0x1FBE, 0x1FBE, 1, -7205); (0x1FD0, 0x1FD1, 1, 8); (0x1FE0, 0x1FE1, 1, 8);
  (0x1FE5, 0x1FE5, 1, 7); (0x214E, 0x214E, 1, -28); (0x2170, 0x217F, 1, -16); (0x2184, 0x2184, 1, -1);
  (0x24D0, 0x24E9, 1, -26); (0x2C30, 0x2C5F, 1, -48); (0x2C61, 0x2C61, 1, -1); (0x2C65, 0x2C65, 1, -10795);
  (0x2C66, 0x2C66, 1, -10792); (0x2C68, 0x2C6C, 2, -1); (0x2C73, 0x2C73, 1, -1); (0x2C76, 0x2C76, 1, -1);
  (0x2C81, 0x2CE3, 2, -1); (0x2CEC, 0x2CEE, 2, -1); (0x2CF3, 0x2CF3, 1, -1); (0x2D00, 0x2D25, 1, -7264);
  (0x2D27, 0x2D27, 1, -7264); (0x2D2D, 0x2D2D, 1, -7264); (0xA641, 0xA66D, 2, -1); (0xA681, 0xA69B, 2, -1);
  (0xA723, 0xA72F, 2, -1); (0xA733, 0xA76F, 2, -1); (0xA77A, 0xA77C, 2, -1); (0xA77F, 0xA787, 2, -1);
  (0xA78C, 0xA78C, 1, -1); (0xA791, 0xA793, 2, -1); (0xA794, 0xA794, 1, 48); (0xA797, 0xA7A9, 2, -1);
  (0xA7B5, 0xA7C3, 2, -1); (0xA7C8, 0xA7CA, 2, -1); (0xA7D1, 0xA7D1, 1, -1); (0xA7D7, 0xA7D9, 2, -1);
  (0xA7F6, 0xA7F6, 1, -1); (0xAB53, 0xAB53, 1, -928); (0xAB70, 0xABBF, 1, -38864); (0xFF41, 0xFF5A, 1, -32);
  (0x10428, 0x1044F, 1, -40); (0x104D8, 0x104FB, 1, -40); (0x10597, 0x105BB, 2, -39); (0x10598, 0x105A0, 2, -39);
  (0x105A4, 0x105B0, 2, -39); (0x105B4, 0x105B8, 2, -39); (0x105BC, 0x105BC, 1, -39); (0x10CC0, 0x10CF2, 1, -64);
  (0x118C0, 0x118DF, 1, -32); (0x16E60, 0x16E7F, 1, -32); (0x1E922, 0x1E943, 1, -34)].

Definition in_run (c : Z) (r : Z * Z * Z * Z) : bool :=
  let '(lo, hi, step, _) := r in (lo <=? c) && (c <=? hi) && ((c - lo) mod step =? 0).

(** The uppercase form of one code point; a code point in neither table
    is its own uppercase form. *)
Definition upper_cp (c : Z) : list Z :=
  match find (fun e => fst e =? c) upper_special with
  | Some (_, l) => l
  | None =>
      match find (in_run c) upper_runs with
      | Some (_, _, _, delta) => [c + delta]
      | None => [c]
      end
  end.

(** [s.toUpperCase()]: the case map applied to the code points of [s],
    the result encoded back in UTF-16. *)
Definition toUpperCase (s : jsstring) : jsstring :=
  flat_map utf16 (flat_map upper_cp (code_points s)).

(** The units [String.prototype.trim] removes, WhiteSpace and
    LineTerminator: TAB, LF, VT, FF, CR, the space separators (SPACE,
    NO-BREAK SPACE, OGHAM SPACE MARK, U+2000..U+200A, NARROW NO-BREAK SPACE,
    MEDIUM MATHEMATICAL SPACE, IDEOGRAPHIC SPACE), LINE SEPARATOR,
    PARAGRAPH SEPARATOR and the BYTE ORDER MARK. *)
Definition is_ws (u : Z) : bool :=
  ((9 <=? u) && (u <=? 13)) || (u =? 32) || (u =? 0xA0) || (u =? 0x1680) ||
  ((0x2000 <=? u) && (u <=? 0x200A)) || (u =? 0x2028) || (u =? 0x2029) ||
  (u =? 0x202F) || (u =? 0x205F) || (u =? 0x3000) || (u =? 0xFEFF).

Fixpoint trim_start (s : jsstring) : jsstring :=
  match s with
  | [] => []
  | u :: rest => if is_ws u then trim_start rest else s
  end.

Definition trim_end (s : jsstring) : jsstring := rev (trim_start (rev s)).

(** [s.trim()] *)
Definition trim (s : jsstring) : jsstring := trim_end (trim_start s).

(** [!s.trim()]: the trimmed string is the empty string (falsy). *)
Definition blank (s : jsstring) : bool :=
  match trim s with [] => true | _ => false end.

(** [s.substring(start, end)]: both indices clamped to [0, length], swapped
    when [start > end]. *)
Definition js_substring (s : jsstring) (start stop : nat) : jsstring :=
  let len := List.length s in
  let a := Nat.min start len in
  let b := Nat.min stop len in
  firstn (Nat.max a b - Nat.min a b) (skipn (Nat.min a b) s).

(** Base-36 digits in lower and in upper case, and the uppercase form of
    an ASCII letter. *)
Definition is_base36_lower (u : Z) : bool := ((48 <=? u) && (u <=? 57)) || ((97 <=? u) && (u <=? 122)).
Definition is_base36_upper (u : Z) : bool := ((48 <=? u) && (u <=? 57)) || ((65 <=? u) && (u <=? 90)).
Definition ascii_upper (u : Z) : Z := if (97 <=? u) && (u <=? 122) then u - 32 else u.


(* ------------------------------------------------------------------------- *)
(** ** The two tables (migration 20250729202001) *)

Record room := mkRoom {
  room_id : Z;
  code : jsstring;
  host_name : jsstring;
  max_players : Z;
  created_at : Z
}.

Record player := mkPlayer {
  player_id : Z;
  player_room_id : Z;
  name : jsstring;
  is_host : bool;
  joined_at : Z
}.

(** The backing store: both tables, the generator behind
    [gen_random_uuid()] (a fresh-id counter) and the clock behind [now()]. *)
Record db := mkDb {
  rooms : list room;
  players : list player;
  next_id : Z;
  clock : Z
}.

(** Column default of [rooms.max_players]. *)
Definition max_players_default : Z := 4.

Inductive store_error :=
| TransportError          (* the request did not reach the store *)
| UniqueViolation         (* rooms.code UNIQUE *)
| ForeignKeyViolation     (* players.room_id REFERENCES rooms(id) *)
| NotSingle.              (* .single() on a result that is not one row *)

Inductive resp (A : Type) :=
| Ok : A -> resp A
| Err : store_error -> resp A.
Arguments Ok {A} _.
Arguments Err {A} _.

Definition room_eqb_id (rid : Z) (r : room) : bool := room_id r =? rid.
Definition in_room (rid : Z) (p : player) : bool := player_room_id p =? rid.

(** [insert into rooms (code, host_name [, max_players])], returning the row. *)
Definition insert_room (d : db) (c h : jsstring) (mp : option Z) : resp room * db :=
  if existsb (fun r => jsstr_eqb (code r) c) (rooms d) then (Err UniqueViolation, d)
  else
    let r := mkRoom (next_id d) c h (match mp with Some m => m | None => max_players_default end)
                    (clock d) in
    (Ok r, mkDb (rooms d ++ [r]) (players d) (next_id d + 1) (clock d + 1)).

(** [insert into players (room_id, name, is_host)], returning the row. *)
Definition insert_player (d : db) (rid : Z) (n : jsstring) (h : bool) : resp player * db :=
  if existsb (room_eqb_id rid) (rooms d) then
    let p := mkPlayer (next_id d) rid n h (clock d) in
    (Ok p, mkDb (rooms d) (players d ++ [p]) (next_id d + 1) (clock d + 1))
  else (Err ForeignKeyViolation, d).

(** [from('rooms').select('*').eq('code', c).single()]. *)
Definition select_room_by_code (d : db) (c : jsstring) : resp room * db :=
  match filter (fun r => jsstr_eqb (code r) c) (rooms d) with
  | [r] => (Ok r, d)
  | _ => (Err NotSingle, d)
  end.

(** [from('players').select('*').eq('room_id', rid)]. *)
Definition select_players_in (d : db) (rid : Z) : resp (list player) * db :=
  (Ok (filter (in_room rid) (players d)), d).

(** [ORDER BY joined_at ASC]: a stable insertion sort on [joined_at]. *)
Fixpoint insert_by_joined_at (p : player) (l : list player) : list player :=
  match l with
  | [] => [p]
  | q :: l' => if joined_at p <? joined_at q then p :: l else q :: insert_by_joined_at p l'
  end.

Fixpoint order_by_joined_at (l : list player) : list player :=
  match l with
  | [] => []
  | p :: l' => insert_by_joined_at p (order_by_joined_at l')
  end.

(** [from('players').select('*').eq('room_id', rid).order('joined_at', asc)]. *)
Definition select_players_ordered (d : db) (rid : Z) : resp (list player) * db :=
  (Ok (order_by_joined_at (filter (in_room rid) (players d))), d).

(** [from('players').delete().eq('id', pid)]. *)
Definition delete_player_by_id (d : db) (pid : Z) : resp unit * db :=
  (Ok tt, mkDb (rooms d) (filter (fun p => negb (player_id p =? pid)) (players d))
               (next_id d) (clock d)).

(** [from('rooms').delete().eq('id', rid)], with [ON DELETE CASCADE] on
    [players.room_id]. *)
Definition delete_room_by_id (d : db) (rid : Z) : resp unit * db :=
  (Ok tt, mkDb (filter (fun r => negb (room_eqb_id rid r)) (rooms d))
               (filter (fun p => negb (in_room rid p)) (players d))
               (next_id d) (clock d)).

(** The world the client talks to: the store and, per issued request in
    order, whether the request reaches the store ([false]: it fails with a
    transport error and has no effect; once the list is exhausted every
    request goes through). *)
Record world := mkWorld { store : db; net : list bool }.

Definition call {A} (w : world) (op : db -> resp A * db) : resp A * world :=
  match net w with
  | false :: rest => (Err TransportError, mkWorld (store w) rest)
  | true :: rest => let (r, d') := op (store w) in (r, mkWorld d' rest)
  | [] => let (r, d') := op (store w) in (r, mkWorld d' [])
  end.

(** Whether the [n]-th request from now goes through. *)
Definition goes_through (w : world) (n : nat) : bool := nth n (net w) true.

(* ------------------------------------------------------------------------- *)
(** ** [generateRoomCode]: [Number.prototype.toString(36)] as V8 computes it *)

(** Doubles: a finite non-negative double is held as the integer number of
    units of [2^-1074] (the least subnormal) it is worth. *)
Definition dbl_one : Z := 2 ^ 1074.
Definition dbl_half : Z := 2 ^ 1073.

(** Exponent of the unit in the last place of [x] (in units). *)
Definition ulp_exp (x : Z) : Z := Z.max 0 (Z.log2 x - 52).

Definition is_double (x : Z) : bool := x mod 2 ^ ulp_exp x =? 0.

(** [a / b] rounded to the nearest integer, ties to even. *)
Definition round_div (a b : Z) : Z :=
  let q := a / b in
  let r := a mod b in
  if b <? 2 * r then q + 1 else if 2 * r <? b then q else if Z.even q then q else q + 1.

(** The double nearest to [n / d] units (round to nearest, ties to even),
    for [n >= 0] and [d > 0]; [0] for [n <= 0]. *)
Definition round_units (n d : Z) : Z :=
  if n <=? 0 then 0
  else let s := Z.max 0 (Z.log2 (n / d) - 52) in round_div n (d * 2 ^ s) * 2 ^ s.

Definition fmul (x k : Z) : Z := round_units (x * k) 1.
Definition fadd (x y : Z) : Z := round_units (x + y) 1.
(** Subtraction, used only where [y <= x]. *)
Definition fsub (x y : Z) : Z := round_units (x - y) 1.
Definition fhalf (x : Z) : Z := round_units x 2.
Definition fdiv36 (x : Z) : Z := round_units x 36.

(** [Double(x).NextDouble()] for a non-negative double [x]. *)
Definition next_double (x : Z) : Z := x + 2 ^ ulp_exp x.

(** [chars[d]] of ["0123456789abcdefghijklmnopqrstuvwxyz"]. *)
Definition chars36 (d : Z) : Z := if d <? 10 then 48 + d else 87 + d.

(** The carry of the round-to-even step, through the digits written so far
    (most recent first): [None] when it reaches the point. *)
Fixpoint carry_back (rdigits : list Z) : option (list Z) :=
  match rdigits with
  | [] => None
  | d :: rest => if d + 1 <? 36 then Some ((d + 1) :: rest) else carry_back rest
  end.

(** The [do ... while (fraction >= delta)] loop of [DoubleToRadixCString]
    for radix 36. The result is [(carry into the integer part, fraction
    digits, most recent first)]; [None] only when the fuel runs out. *)
Fixpoint frac_loop (fuel : nat) (fraction delta : Z) (rdigits : list Z)
  : option (bool * list Z) :=
  match fuel with
  | O => None
  | S fuel' =>
      let fraction1 := fmul fraction 36 in
      let delta1 := fmul delta 36 in
      let digit := fraction1 / dbl_one in
      let rdigits1 := digit :: rdigits in
      let fraction2 := fsub fraction1 (digit * dbl_one) in
      if ((dbl_half <? fraction2) || ((fraction2 =? dbl_half) && Z.odd digit))
         && (dbl_one <? fadd fraction2 delta1) then
        match carry_back rdigits1 with
        | None => Some (true, [])
        | Some r => Some (false, r)
        end
      else if delta1 <=? fraction2 then frac_loop fuel' fraction2 delta1 rdigits1
      else Some (false, rdigits1)
  end.

(** [while (Double(integer / radix).Exponent() > 0)]: the integer digits
    below the precision of [integer] are written as ['0']. *)
Fixpoint zero_fill (fuel : nat) (integer : Z) (zeros : jsstring) : option (Z * jsstring) :=
  match fuel with
  | O => None
  | S fuel' =>
      if 2 ^ 53 * dbl_one <=? fdiv36 integer then zero_fill fuel' (fdiv36 integer) (48 :: zeros)
      else Some (integer, zeros)
  end.

(** [do { remainder = Modulo(integer, radix); ...;
    integer = (integer - remainder) / radix; } while (integer > 0)]. *)
Fixpoint int_digits (fuel : nat) (integer : Z) (acc : jsstring) : option jsstring :=
  match fuel with
  | O => None
  | S fuel' =>
      let remainder := integer mod (36 * dbl_one) in
      let acc1 := chars36 (remainder / dbl_one) :: acc in
      let integer1 := fdiv36 (fsub integer remainder) in
      if 0 <? integer1 then int_digits fuel' integer1 acc1 else Some acc1
  end.

Definition integer_part36 (integer : Z) : option jsstring :=
  match zero_fill 1100 integer [] with
  | None => None
  | Some (i, zeros) =>
      match int_digits 1100 i [] with
      | None => None
      | Some ds => Some (ds ++ zeros)
      end
  end.

(** [DoubleToRadixCString(value, 36)] (V8, src/numbers/conversions.cc) for
    a positive double [value]: the fraction digits are produced only up to
    the precision of [value] ([delta], half the distance to the next
    double), the last one rounded to even with a carry into the digits
    already written. *)
Definition double_to_radix36 (value : Z) : option jsstring :=
  let integer := value / dbl_one * dbl_one in
  let fraction := fsub value integer in
  let delta := Z.max 1 (fhalf (fsub (next_double value) value)) in
  let has_point := delta <=? fraction in
  match (if has_point then frac_loop 1100 fraction delta [] else Some (false, [])) with
  | None => None
  | Some (carry, rdigits) =>
      let integer' := if carry then fadd integer dbl_one else integer in
      match integer_part36 integer' with
      | None => None
      | Some ids =>
          Some (ids ++ (if has_point && negb carry then 46 :: map chars36 (rev rdigits) else []))
      end
  end.

(** [Number.prototype.toString(36)] on a non-negative double: ["0"] for
    zero, [DoubleToRadixCString] otherwise. *)
Definition number_toString36 (value : Z) : option jsstring :=
  if value =? 0 then Some (js "0") else double_to_radix36 value.

(** [Math.random().toString(36).substring(2, 8).toUpperCase()], the draw
    of [Math.random()] being a double of [[0, 1)]. *)
Definition generateRoomCode (draw : Z) : jsstring :=
  match number_toString36 draw with
  | Some s => toUpperCase (js_substring s 2 8)
  | None => []
  end.

(* ------------------------------------------------------------------------- *)
(** ** Client state of the component *)

Inductive view := Landing | InRoomView.

Record client := mkClient {
  currentView : view;
  playerName : jsstring;
  roomCode : jsstring;
  currentRoom : option room;
  currentPlayer : option player;
  players_ : list player;      (* the [players] state: the displayed roster *)
  loading : bool
}.

Definition initial_client : client := mkClient Landing [] [] None None [] false.

(** The toasts the component shows. *)
Inductive toast :=
| PlayerNameRequiredHost
| PlayerNameRequiredJoin
| RoomCodeRequired
| RoomCreated (c : jsstring)
| CreateFailed
| RoomNotFound
| RoomFull
| JoinedRoom (c : jsstring)
| JoinFailed
| LeftRoom
| LeaveFailed
| NotEnoughPlayers
| RoomClosed.

Definition set_loading (b : bool) (c : client) : client :=
  mkClient (currentView c) (playerName c) (roomCode c) (currentRoom c) (currentPlayer c)
           (players_ c) b.

Definition set_roomCode (s : jsstring) (c : client) : client :=
  mkClient (currentView c) (playerName c) s (currentRoom c) (currentPlayer c)
           (players_ c) (loading c).

Definition set_players (ps : list player) (c : client) : client :=
  mkClient (currentView c) (playerName c) (roomCode c) (currentRoom c) (currentPlayer c)
           ps (loading c).

(** [setCurrentRoom(r); setCurrentPlayer(p); setCurrentView('room')] *)
Definition enter_room (r : room) (p : player) (c : client) : client :=
  mkClient InRoomView (playerName c) (roomCode c) (Some r) (Some p) (players_ c) (loading c).

(** [setCurrentRoom(null); setCurrentPlayer(null); setPlayers([]);
     setCurrentView('landing'); setRoomCode('')] *)
Definition back_to_landing (c : client) : client :=
  mkClient Landing (playerName c) [] None None [] (loading c).

(** Input handlers: [setPlayerName(e.target.value)] and
    [setRoomCode(e.target.value.toUpperCase())]. *)
Definition onPlayerNameChange (s : jsstring) (c : client) : client :=
  mkClient (currentView c) s (roomCode c) (currentRoom c) (currentPlayer c)
           (players_ c) (loading c).

Definition onRoomCodeChange (s : jsstring) (c : client) : client :=
  set_roomCode (toUpperCase s) c.

(* ------------------------------------------------------------------------- *)
(** ** Actions *)

(** [hostRoom]; [k] is the random draw of [generateRoomCode]. The
    [finally] clause resets [loading]. *)
Definition hostRoom (k : Z) (c : client) (w : world) : client * world * list toast :=
  if blank (playerName c) then (c, w, [PlayerNameRequiredHost])
  else
    let c1 := set_loading true c in
    let newRoomCode := generateRoomCode k in
    let (r1, w1) := call w (fun d => insert_room d newRoomCode (playerName c) (Some 5)) in
    match r1 with
    | Err _ => (set_loading false c1, w1, [CreateFailed])
    | Ok roomData =>
        let (r2, w2) := call w1 (fun d => insert_player d (room_id roomData) (playerName c) true) in
        match r2 with
        | Err _ => (set_loading false c1, w2, [CreateFailed])
        | Ok playerData =>
            (set_loading false (enter_room roomData playerData c1), w2, [RoomCreated newRoomCode])
        end
    end.

(** [joinRoom]. An early [return] inside [try] still runs [finally]. *)
Definition joinRoom (c : client) (w : world) : client * world * list toast :=
  if blank (playerName c) then (c, w, [PlayerNameRequiredJoin])
  else if blank (roomCode c) then (c, w, [RoomCodeRequired])
  else
    let c1 := set_loading true c in
    let (r1, w1) := call w (fun d => select_room_by_code d (toUpperCase (roomCode c))) in
    match r1 with
    | Err _ => (set_loading false c1, w1, [RoomNotFound])
    | Ok roomData =>
        let (r2, w2) := call w1 (fun d => select_players_in d (room_id roomData)) in
        match r2 with
        | Err _ => (set_loading false c1, w2, [JoinFailed])
        | Ok existingPlayers =>
            if Z.of_nat (List.length existingPlayers) >=? max_players roomData then
              (set_loading false c1, w2, [RoomFull])
            else
              let (r3, w3) := call w2 (fun d => insert_player d (room_id roomData) (playerName c) false) in
              match r3 with
              | Err _ => (set_loading false c1, w3, [JoinFailed])
              | Ok playerData =>
                  (set_loading false (enter_room roomData playerData c1), w3,
                   [JoinedRoom (toUpperCase (roomCode c))])
              end
        end
    end.

(** [leaveRoom]. The two deletes are awaited but their [error] fields are
    not inspected, so a failed delete does not reach the [catch] clause. *)
Definition leaveRoom (c : client) (w : world) : client * world * list toast :=
  match currentPlayer c, currentRoom c with
  | Some p, Some r =>
      let (_, w1) := call w (fun d => delete_player_by_id d (player_id p)) in
      let w2 := if is_host p then snd (call w1 (fun d => delete_room_by_id d (room_id r))) else w1 in
      (back_to_landing c, w2, [LeftRoom])
  | _, _ => (c, w, [])
  end.

(** Result of [startGame]: navigation, a toast, or nothing. *)
Inductive start_outcome := NavigateGame | StartToast (t : toast) | NoEffect.

Definition startGame (c : client) : start_outcome :=
  match currentRoom c, currentPlayer c with
  | Some _, Some p =>
      if is_host p then
        if Z.of_nat (List.length (players_ c)) <? 2 then StartToast NotEnoughPlayers else NavigateGame
      else NoEffect
  | _, _ => NoEffect
  end.

(** The rendered Start Game button (shown when [currentPlayer?.is_host]):
    whether it is disabled, and the "(Need n more)" label when present. *)
Record start_button := mkStartButton { disabled : bool; need_more : option Z }.

Definition render_start_button (c : client) : option start_button :=
  match currentPlayer c with
  | Some p =>
      if is_host p then
        let n := Z.of_nat (List.length (players_ c)) in
        let has_room := match currentRoom c with Some _ => true | None => false end in
        Some (mkStartButton (negb has_room || (n <? 2))
                            (if has_room && (n <? 2) then Some (2 - n) else None))
      else None
  | None => None
  end.

(** [fetchPlayers]: on success the roster is replaced by the ordered query
    result ([data || []]); on error it is left as is. *)
Definition fetchPlayers (c : client) (w : world) : client * world :=
  match currentRoom c with
  | None => (c, w)
  | Some r =>
      let (res, w1) := call w (fun d => select_players_ordered d (room_id r)) in
      match res with
      | Ok ps => (set_players ps c, w1)
      | Err _ => (c, w1)
      end
  end.

(** Handler of the DELETE event on [rooms]. *)
Definition onRoomDeleted (c : client) : client * list toast :=
  (back_to_landing c, [RoomClosed]).

(* ------------------------------------------------------------------------- *)
(** ** Lemmas about the store calls *)

Lemma call_through {A} (w : world) (op : db -> resp A * db) :
  goes_through w 0 = true ->
  call w op = (fst (op (store w)), mkWorld (snd (op (store w))) (tl (net w))).
Proof.
  unfold goes_through, call. destruct (net w) as [|[|] rest]; simpl; try discriminate;
    destruct (op (store w)); reflexivity.
Qed.

Lemma call_fails {A} (w : world) (op : db -> resp A * db) :
  goes_through w 0 = false ->
  call w op = (Err TransportError, mkWorld (store w) (tl (net w))).
Proof.
  unfold goes_through, call. destruct (net w) as [|[|] rest]; simpl; congruence.
Qed.

Lemma goes_through_tl (d : db) (w : world) (n : nat) :
  goes_through (mkWorld d (tl (net w))) n = goes_through w (S n).
Proof.
  unfold goes_through; simpl. destruct (net w); simpl; [destruct n|]; reflexivity.
Qed.

(** A store operation that leaves the store as it is, called through the
    network: whatever the network does, the store is unchanged. *)
Lemma call_read_only {A} (w : world) (op : db -> resp A * db) :
  (forall d, snd (op d) = d) ->
  store (snd (call w op)) = store w.
Proof.
  intros Hro. unfold call. destruct (net w) as [|[|] rest]; simpl;
    try reflexivity; specialize (Hro (store w)); destruct (op (store w)); simpl in *; congruence.
Qed.

Lemma call_result_read_only {A} (w : world) (op : db -> resp A * db) (r : resp A) :
  (forall d, snd (op d) = d) ->
  r = fst (call w op) ->
  call w op = (r, mkWorld (store w) (tl (net w))).
Proof.
  intros Hro ->. unfold call. destruct (net w) as [|[|] rest]; simpl;
    try reflexivity; specialize (Hro (store w)); destruct (op (store w)); simpl in *; congruence.
Qed.

Lemma existsb_room_id_app (l : list room) (r : room) :
  existsb (room_eqb_id (room_id r)) (l ++ [r]) = true.
Proof.
  rewrite existsb_app. simpl. unfold room_eqb_id. rewrite Z.eqb_refl.
  rewrite orb_true_r. reflexivity.
Qed.

(* ------------------------------------------------------------------------- *)
(** ** Lemmas about the string functions *)

Lemma jsstr_eqb_eq (s t : jsstring) : jsstr_eqb s t = true <-> s = t.
Proof.
  unfold jsstr_eqb. destruct (list_eq_dec Z.eq_dec s t); split; congruence.
Qed.

Lemma jsstr_eqb_refl (s : jsstring) : jsstr_eqb s s = true.
Proof. apply jsstr_eqb_eq. reflexivity. Qed.

Lemma jsstr_eqb_neq (s t : jsstring) : jsstr_eqb s t = false <-> s <> t.
Proof.
  unfold jsstr_eqb. destruct (list_eq_dec Z.eq_dec s t); split; congruence.
Qed.

Definition zrange (lo : Z) (n : nat) : list Z := map (fun i => lo + Z.of_nat i) (seq 0 n).

Lemma in_zrange (lo : Z) (n : nat) (u : Z) : lo <= u < lo + Z.of_nat n -> In u (zrange lo n).
Proof.
  intros Hu. unfold zrange. apply in_map_iff. exists (Z.to_nat (u - lo)). split; [lia|].
  apply in_seq. lia.
Qed.

Definition run_domain (r : Z * Z * Z * Z) : list Z :=
  let '(lo, hi, step, _) := r in
  map (fun i => lo + step * Z.of_nat i) (seq 0 (S (Z.to_nat ((hi - lo) / step)))).

Lemma in_run_domain (c : Z) (r : Z * Z * Z * Z) :
  let '(_, _, step, _) := r in 0 < step -> in_run c r = true -> In c (run_domain r).
Proof.
  destruct r as [[[lo hi] step] delta]. intros Hs H. unfold in_run in H.
  apply andb_true_iff in H. destruct H as [H Hm]. apply andb_true_iff in H. destruct H as [H1 H2].
  apply Z.leb_le in H1. apply Z.leb_le in H2. apply Z.eqb_eq in Hm.
  unfold run_domain. apply in_map_iff. exists (Z.to_nat ((c - lo) / step)).
  assert (Hq : 0 <= (c - lo) / step) by (apply Z.div_pos; lia).
  split.
  - rewrite Z2Nat.id by exact Hq. pose proof (Z.div_mod (c - lo) step ltac:(lia)). lia.
  - apply in_seq. split; [lia|].
    assert ((c - lo) / step <= (hi - lo) / step) by (apply Z.div_le_mono; lia). lia.
Qed.

(** An output of the case map: mapped to itself, neither a surrogate nor
    white space. *)
Definition case_fixed (o : Z) : bool :=
  jsstr_eqb (upper_cp o) [o] && negb (is_surrogate o) && negb (is_ws o).

Definition upper_special_ok (e : Z * list Z) : bool :=
  negb (is_ws (fst e)) && negb (jsstr_eqb (snd e) []) && forallb case_fixed (snd e).

Definition upper_run_ok (r : Z * Z * Z * Z) : bool :=
  let '(lo, hi, step, delta) := r in
  (0 <? step) && forallb (fun c => negb (is_ws c) && case_fixed (c + delta)) (run_domain r).

Lemma upper_table_ok :
  forallb upper_special_ok upper_special && forallb upper_run_ok upper_runs = true.
Proof. vm_compute. reflexivity. Qed.

Lemma upper_cp_cases (c : Z) :
  upper_cp c = [c] \/
  (is_ws c = false /\ upper_cp c <> [] /\
   forall o, In o (upper_cp c) -> upper_cp o = [o] /\ is_surrogate o = false /\ is_ws o = false).
Proof.
  pose proof upper_table_ok as T. apply andb_true_iff in T. destruct T as [Ts Tr].
  rewrite forallb_forall in Ts, Tr.
  unfold upper_cp at 1 2 3.
  destruct (find (fun e => fst e =? c) upper_special) as [[c' l]|] eqn:E.
  - apply find_some in E. destruct E as [Hin Hc]. cbn [fst] in Hc. apply Z.eqb_eq in Hc. subst c'.
    specialize (Ts _ Hin). unfold upper_special_ok in Ts. cbn [fst snd] in Ts.
    apply andb_true_iff in Ts. destruct Ts as [Ts Hf]. apply andb_true_iff in Ts. destruct Ts as [Hw Hne].
    right. split; [apply negb_true_iff, Hw|]. split.
    + intros ->. discriminate.
    + intros o Ho. rewrite forallb_forall in Hf. specialize (Hf o Ho). unfold case_fixed in Hf.
      apply andb_true_iff in Hf. destruct Hf as [Hf Hw']. apply andb_true_iff in Hf. destruct Hf as [Hf Hs].
      apply jsstr_eqb_eq in Hf. apply negb_true_iff in Hs, Hw'. auto.
  - destruct (find (in_run c) upper_runs) as [[[[lo hi] step] delta]|] eqn:E2; [|left; reflexivity].
    apply find_some in E2. destruct E2 as [Hin Hr].
    specialize (Tr _ Hin). unfold upper_run_ok in Tr. apply andb_true_iff in Tr. destruct Tr as [Hs Tr].
    apply Z.ltb_lt in Hs. rewrite forallb_forall in Tr.
    pose proof (in_run_domain c (lo, hi, step, delta) Hs Hr) as Hd.
    specialize (Tr c Hd). apply andb_true_iff in Tr. destruct Tr as [Hw Hf].
    right. split; [apply negb_true_iff, Hw|]. split; [discriminate|].
    intros o [<- | []]. unfold case_fixed in Hf.
    apply andb_true_iff in Hf. destruct Hf as [Hf Hw']. apply andb_true_iff in Hf. destruct Hf as [Hf Hs'].
    apply jsstr_eqb_eq in Hf. apply negb_true_iff in Hs', Hw'. auto.
Qed.

Lemma upper_cp_idem (l : list Z) :
  flat_map upper_cp (flat_map upper_cp l) = flat_map upper_cp l.
Proof.
  induction l as [|c l IH]; [reflexivity|]. cbn [flat_map]. rewrite flat_map_app, IH. f_equal.
  destruct (upper_cp_cases c) as [E | (_ & _ & H)].
  - rewrite E. cbn. rewrite E. reflexivity.
  - induction (upper_cp c) as [|o os IHo]; [reflexivity|]. cbn [flat_map].
    rewrite (proj1 (H o (or_introl eq_refl))). cbn [app]. f_equal.
    apply IHo. intros o' Ho'. apply H. right. exact Ho'.
Qed.

Fixpoint no_pair (l : list Z) : bool :=
  match l with
  | a :: ((b :: _) as t) => negb (is_high_surrogate a && is_low_surrogate b) && no_pair t
  | _ => true
  end.

Lemma high_surrogate_not_low (u : Z) : is_high_surrogate u = true -> is_low_surrogate u = false.
Proof.
  unfold is_high_surrogate, is_low_surrogate. intros H. apply andb_true_iff in H.
  destruct H as [_ H]. apply Z.leb_le in H. apply andb_false_iff. left. apply Z.leb_gt. lia.
Qed.

Lemma supplementary_not_surrogate (x : Z) :
  0x10000 <= x -> is_high_surrogate x = false /\ is_low_surrogate x = false.
Proof.
  intros H. unfold is_high_surrogate, is_low_surrogate.
  split; apply andb_false_iff; right; apply Z.leb_gt; lia.
Qed.

Lemma code_points_head (v : Z) (r : jsstring) :
  exists x t, code_points (v :: r) = x :: t /\ (x = v \/ 0x10000 <= x).
Proof.
  cbn [code_points]. destruct (is_high_surrogate v) eqn:Hv.
  - destruct r as [|w r].
    + eauto.
    + destruct (is_low_surrogate w) eqn:Hw; [|eauto].
      do 2 eexists. split; [reflexivity|]. right.
      unfold is_high_surrogate in Hv. apply andb_true_iff in Hv. destruct Hv as [Hv _].
      apply Z.leb_le in Hv. unfold is_low_surrogate in Hw. apply andb_true_iff in Hw.
      destruct Hw as [Hw _]. apply Z.leb_le in Hw. lia.
  - eauto.
Qed.

Lemma code_points_no_pair (s : jsstring) : no_pair (code_points s) = true.
Proof.
  remember (List.length s) as n eqn:Hn. assert (Hle : (List.length s <= n)%nat) by lia. clear Hn.
  revert s Hle. induction n as [|n IH]; intros s Hle.
  { destruct s; [reflexivity|cbn in Hle; lia]. }
  destruct s as [|u rest]; [reflexivity|]. cbn in Hle.
  cbn [code_points]. destruct (is_high_surrogate u) eqn:Hu.
  - destruct rest as [|v rest']; [reflexivity|].
    destruct (is_low_surrogate v) eqn:Hv.
    + destruct rest' as [|w r'].
      * reflexivity.
      * destruct (code_points_head w r') as (x & t & E & Hx). rewrite E.
        change (no_pair (?a :: x :: t)) with
          (negb (is_high_surrogate a && is_low_surrogate x) && no_pair (x :: t)).
        rewrite <- E. rewrite IH by (cbn in *; lia).
        rewrite (proj1 (supplementary_not_surrogate (0x10000 + (u - 0xD800) * 0x400 + (v - 0xDC00))
                          ltac:(unfold is_high_surrogate in Hu; apply andb_true_iff in Hu;
                                destruct Hu as [Hu _]; apply Z.leb_le in Hu;
                                unfold is_low_surrogate in Hv; apply andb_true_iff in Hv;
                                destruct Hv as [Hv _]; apply Z.leb_le in Hv; lia))).
        reflexivity.
    + destruct (code_points_head v rest') as (x & t & E & Hx). rewrite E.
      change (no_pair (u :: x :: t)) with
        (negb (is_high_surrogate u && is_low_surrogate x) && no_pair (x :: t)).
      rewrite <- E. rewrite IH by (cbn in *; lia).
      destruct Hx as [-> | Hx]; [rewrite Hv|rewrite (proj2 (supplementary_not_surrogate x Hx))];
        rewrite andb_false_r; reflexivity.
  - destruct rest as [|v rest']; [reflexivity|].
    destruct (code_points_head v rest') as (x & t & E & Hx). rewrite E.
    change (no_pair (u :: x :: t)) with
      (negb (is_high_surrogate u && is_low_surrogate x) && no_pair (x :: t)).
    rewrite <- E. rewrite IH by (cbn in *; lia). rewrite Hu. reflexivity.
Qed.

Lemma no_pair_cons (a : Z) (t : list Z) :
  no_pair (a :: t) =
  match t with b :: _ => negb (is_high_surrogate a && is_low_surrogate b) | [] => true end && no_pair t.
Proof. destruct t; reflexivity. Qed.

Lemma no_pair_app_plain (x y : list Z) :
  forallb (fun o => negb (is_surrogate o)) x = true -> no_pair y = true -> no_pair (x ++ y) = true.
Proof.
  induction x as [|a x IH]; intros Hx Hy; [exact Hy|].
  cbn [forallb] in Hx. apply andb_true_iff in Hx. destruct Hx as [Ha Hx].
  cbn [app]. rewrite no_pair_cons, IH by assumption. rewrite andb_true_r.
  destruct (x ++ y) as [|b t]; [reflexivity|].
  apply negb_true_iff in Ha. unfold is_surrogate in Ha. unfold is_high_surrogate.
  apply andb_false_iff in Ha. apply negb_true_iff, andb_false_iff.
  left. apply andb_false_iff. destruct Ha as [Ha|Ha]; [left|right]; apply Z.leb_gt;
    apply Z.leb_gt in Ha; lia.
Qed.

Lemma upper_cp_head (b : Z) :
  exists x t, upper_cp b = x :: t /\ (x = b \/ is_surrogate x = false).
Proof.
  destruct (upper_cp_cases b) as [E | (_ & Hne & H)].
  - rewrite E. eauto.
  - destruct (upper_cp b) as [|x t] eqn:E; [congruence|].
    exists x, t. split; [reflexivity|]. right. apply H. left. reflexivity.
Qed.

Lemma not_surrogate_not_low (x : Z) : is_surrogate x = false -> is_low_surrogate x = false.
Proof.
  unfold is_surrogate, is_low_surrogate. intros H. apply andb_false_iff in H.
  apply andb_false_iff. destruct H as [H|H]; apply Z.leb_gt in H; [left|right]; apply Z.leb_gt; lia.
Qed.

Lemma upper_no_pair (l : list Z) : no_pair l = true -> no_pair (flat_map upper_cp l) = true.
Proof.
  induction l as [|a t IH]; intros Hl; [reflexivity|].
  rewrite no_pair_cons in Hl. apply andb_true_iff in Hl. destruct Hl as [Hab Ht].
  cbn [flat_map]. destruct (upper_cp_cases a) as [E | (_ & _ & H)].
  - rewrite E. cbn [app]. rewrite no_pair_cons, IH by exact Ht. rewrite andb_true_r.
    destruct t as [|b t']; [reflexivity|]. cbn [flat_map].
    destruct (upper_cp_head b) as (x & u & Eb & Hx). rewrite Eb. cbn [app].
    destruct Hx as [-> | Hx]; [exact Hab|].
    rewrite (not_surrogate_not_low x Hx), andb_false_r. reflexivity.
  - apply no_pair_app_plain; [|exact (IH Ht)].
    apply forallb_forall. intros o Ho. apply negb_true_iff. apply H, Ho.
Qed.

Lemma code_points_utf16 (l : list Z) : no_pair l = true -> code_points (flat_map utf16 l) = l.
Proof.
  induction l as [|a t IH]; intros Hl; [reflexivity|].
  rewrite no_pair_cons in Hl. apply andb_true_iff in Hl. destruct Hl as [Hab Ht].
  cbn [flat_map]. unfold utf16 at 1.
  destruct ((0x10000 <=? a) && (a <=? 0x10FFFF)) eqn:Ea.
  - apply andb_true_iff in Ea. destruct Ea as [E1 E2]. apply Z.leb_le in E1, E2.
    assert (Hq : 0 <= (a - 0x10000) / 0x400 < 0x400)
      by (split; [apply Z.div_pos|apply Z.div_lt_upper_bound]; lia).
    assert (Hr : 0 <= (a - 0x10000) mod 0x400 < 0x400) by (apply Z.mod_pos_bound; lia).
    cbn [app code_points].
    replace (is_high_surrogate (0xD800 + (a - 0x10000) / 0x400)) with true
      by (symmetry; unfold is_high_surrogate; apply andb_true_iff; split; apply Z.leb_le; lia).
    replace (is_low_surrogate (0xDC00 + (a - 0x10000) mod 0x400)) with true
      by (symmetry; unfold is_low_surrogate; apply andb_true_iff; split; apply Z.leb_le; lia).
    rewrite IH by exact Ht. f_equal.
    pose proof (Z.div_mod (a - 0x10000) 0x400 ltac:(lia)). lia.
  - cbn [app code_points]. destruct (is_high_surrogate a) eqn:Ha; [|rewrite IH by exact Ht; reflexivity].
    destruct t as [|b t']; [reflexivity|].
    cbn [flat_map]. unfold utf16 at 1.
    destruct ((0x10000 <=? b) && (b <=? 0x10FFFF)) eqn:Eb.
    + apply andb_true_iff in Eb. destruct Eb as [E1 E2]. apply Z.leb_le in E1, E2.
      cbn [app].
      replace (is_low_surrogate (0xD800 + (b - 0x10000) / 0x400)) with false.
      * rewrite <- IH by exact Ht. cbn [flat_map].
        replace (utf16 b) with [0xD800 + (b - 0x10000) / 0x400; 0xDC00 + (b - 0x10000) mod 0x400]
          by (unfold utf16; replace ((0x10000 <=? b) && (b <=? 0x10FFFF)) with true
          by (symmetry; apply andb_true_iff; split; apply Z.leb_le; lia); reflexivity).
        reflexivity.
      * symmetry. unfold is_low_surrogate. apply andb_false_iff. left. apply Z.leb_gt.
        assert ((b - 0x10000) / 0x400 < 0x400) by (apply Z.div_lt_upper_bound; lia). lia.
    + cbn [app]. cbn in Hab. try rewrite Ha in Hab. cbn [andb negb] in Hab.
      destruct (is_low_surrogate b) eqn:Hb; [discriminate|].
      rewrite <- IH by exact Ht. cbn [flat_map].
      replace (utf16 b) with [b] by (unfold utf16; rewrite Eb; reflexivity). reflexivity.
Qed.

Lemma toUpperCase_idem (s : jsstring) : toUpperCase (toUpperCase s) = toUpperCase s.
Proof.
  unfold toUpperCase.
  rewrite code_points_utf16 by (apply upper_no_pair, code_points_no_pair).
  rewrite upper_cp_idem. reflexivity.
Qed.

Lemma is_ws_range (u : Z) : is_ws u = true -> 9 <= u <= 0xFEFF /\ (u < 0xD800 \/ 0xDFFF < u).
Proof.
  unfold is_ws. intros H.
  repeat match type of H with
  | (_ || _) = true => apply orb_true_iff in H; destruct H as [H|H]
  | (_ && _) = true => apply andb_true_iff in H; destruct H as [?H ?H]
  end;
  repeat match goal with
  | h : (_ <=? _) = true |- _ => apply Z.leb_le in h
  | h : (_ =? _) = true |- _ => apply Z.eqb_eq in h
  end; lia.
Qed.

Lemma is_ws_false (u : Z) : (u < 9 \/ 0xFEFF < u \/ 0xD800 <= u <= 0xDFFF) -> is_ws u = false.
Proof.
  intros H. destruct (is_ws u) eqn:E; [|reflexivity]. apply is_ws_range in E. lia.
Qed.

Lemma forallb_ws_code_points (s : jsstring) : forallb is_ws (code_points s) = forallb is_ws s.
Proof.
  remember (List.length s) as n eqn:Hn. assert (Hle : (List.length s <= n)%nat) by lia. clear Hn.
  revert s Hle. induction n as [|n IH]; intros s Hle.
  { destruct s; [reflexivity|cbn in Hle; lia]. }
  destruct s as [|u rest]; [reflexivity|]. cbn in Hle.
  cbn [code_points]. destruct (is_high_surrogate u) eqn:Hu.
  - assert (Hwu : is_ws u = false).
    { apply is_ws_false. unfold is_high_surrogate in Hu. apply andb_true_iff in Hu.
      destruct Hu as [H1 H2]. apply Z.leb_le in H1, H2. lia. }
    destruct rest as [|v rest']; [reflexivity|].
    destruct (is_low_surrogate v) eqn:Hv.
    + cbn [forallb]. rewrite Hwu. cbn [andb].
      unfold is_high_surrogate in Hu. apply andb_true_iff in Hu. destruct Hu as [Hu _].
      apply Z.leb_le in Hu. unfold is_low_surrogate in Hv. apply andb_true_iff in Hv.
      destruct Hv as [Hv _]. apply Z.leb_le in Hv.
      rewrite is_ws_false by lia. reflexivity.
    + cbn [forallb]. rewrite Hwu. reflexivity.
  - cbn [forallb]. rewrite IH by lia. reflexivity.
Qed.

Lemma forallb_ws_utf16 (l : list Z) : forallb is_ws (flat_map utf16 l) = forallb is_ws l.
Proof.
  induction l as [|a t IH]; [reflexivity|]. cbn [flat_map]. rewrite forallb_app, IH.
  cbn [forallb]. f_equal. unfold utf16.
  destruct ((0x10000 <=? a) && (a <=? 0x10FFFF)) eqn:Ea; [|cbn; apply andb_true_r].
  apply andb_true_iff in Ea. destruct Ea as [E1 E2]. apply Z.leb_le in E1, E2.
  assert (Hq : 0 <= (a - 0x10000) / 0x400 < 0x400)
    by (split; [apply Z.div_pos|apply Z.div_lt_upper_bound]; lia).
  rewrite (is_ws_false a) by lia. cbn [forallb].
  rewrite (is_ws_false (0xD800 + _)) by lia. reflexivity.
Qed.

Lemma forallb_ws_upper (l : list Z) : forallb is_ws (flat_map upper_cp l) = forallb is_ws l.
Proof.
  induction l as [|a t IH]; [reflexivity|]. cbn [flat_map forallb]. rewrite forallb_app, IH. f_equal.
  destruct (upper_cp_cases a) as [E | (Hw & Hne & H)].
  - rewrite E. cbn. apply andb_true_r.
  - rewrite Hw. destruct (upper_cp a) as [|o os] eqn:E; [congruence|].
    cbn [forallb]. rewrite (proj2 (proj2 (H o (or_introl eq_refl)))). reflexivity.
Qed.

(** White space is kept by the case map, and a string is white space only
    exactly when its uppercase form is. *)
Lemma forallb_ws_toUpperCase (s : jsstring) : forallb is_ws (toUpperCase s) = forallb is_ws s.
Proof.
  unfold toUpperCase. rewrite forallb_ws_utf16, forallb_ws_upper, forallb_ws_code_points.
  reflexivity.
Qed.

Lemma trim_start_empty_iff (s : jsstring) : trim_start s = [] <-> forallb is_ws s = true.
Proof.
  induction s as [|u s IH]; cbn [trim_start forallb]; [tauto|].
  destruct (is_ws u); cbn [andb]; [exact IH|]. split; discriminate.
Qed.

Lemma trim_start_all_ws (s : jsstring) : forallb is_ws (trim_start s) = true -> trim_start s = [].
Proof.
  induction s as [|u s IH]; cbn [trim_start]; [reflexivity|].
  destruct (is_ws u) eqn:E; [exact IH|]. cbn. rewrite E. discriminate.
Qed.

Lemma forallb_rev {A} (f : A -> bool) (l : list A) : forallb f (rev l) = forallb f l.
Proof.
  induction l as [|a l IH]; [reflexivity|]. cbn [rev forallb].
  rewrite forallb_app, IH. cbn. rewrite andb_true_r, andb_comm. reflexivity.
Qed.

Lemma blank_iff_all_ws (s : jsstring) : blank s = true <-> forallb is_ws s = true.
Proof.
  unfold blank, trim, trim_end. split.
  - intros H. destruct (rev (trim_start (rev (trim_start s)))) eqn:E; [|discriminate].
    apply (f_equal (@rev Z)) in E. rewrite rev_involutive in E. cbn in E.
    apply trim_start_empty_iff in E. rewrite forallb_rev in E. apply trim_start_all_ws in E.
    apply trim_start_empty_iff. exact E.
  - intros H. apply trim_start_empty_iff in H. rewrite H. reflexivity.
Qed.

Lemma blank_toUpperCase (s : jsstring) : blank (toUpperCase s) = blank s.
Proof.
  destruct (blank s) eqn:E.
  - apply blank_iff_all_ws. rewrite forallb_ws_toUpperCase. apply blank_iff_all_ws, E.
  - destruct (blank (toUpperCase s)) eqn:E'; [|reflexivity].
    apply blank_iff_all_ws in E'. rewrite forallb_ws_toUpperCase in E'.
    apply blank_iff_all_ws in E'. congruence.
Qed.

Lemma upper_cp_base36 (u : Z) : is_base36_lower u = true -> upper_cp u = [ascii_upper u].
Proof.
  intros H.
  assert (Hin : In u (zrange 48 10 ++ zrange 97 26)).
  { unfold is_base36_lower in H. apply orb_true_iff in H.
    destruct H as [H|H]; apply andb_true_iff in H; destruct H as [H1 H2]; apply Z.leb_le in H1, H2;
      apply in_or_app; [left|right]; apply in_zrange; cbn; lia. }
  assert (Hall : forallb (fun u => jsstr_eqb (upper_cp u) [ascii_upper u]) (zrange 48 10 ++ zrange 97 26) = true)
    by (vm_compute; reflexivity).
  rewrite forallb_forall in Hall. apply jsstr_eqb_eq, Hall, Hin.
Qed.

Lemma toUpperCase_base36 (s : jsstring) :
  forallb is_base36_lower s = true -> toUpperCase s = map ascii_upper s.
Proof.
  intros H. unfold toUpperCase.
  assert (Hcp : code_points s = s).
  { induction s as [|u s IH]; [reflexivity|]. cbn [forallb] in H. apply andb_true_iff in H.
    destruct H as [Hu H]. cbn [code_points].
    replace (is_high_surrogate u) with false.
    - rewrite IH by exact H. reflexivity.
    - symmetry. unfold is_base36_lower in Hu. unfold is_high_surrogate.
      apply orb_true_iff in Hu. apply andb_false_iff. left. apply Z.leb_gt.
      destruct Hu as [Hu|Hu]; apply andb_true_iff in Hu; destruct Hu as [_ Hu]; apply Z.leb_le in Hu; lia. }
  rewrite Hcp. clear Hcp. induction s as [|u s IH]; [reflexivity|].
  cbn [forallb] in H. apply andb_true_iff in H. destruct H as [Hu H].
  cbn [flat_map map]. rewrite upper_cp_base36 by exact Hu. cbn [app].
  cbn [flat_map]. rewrite IH by exact H.
  unfold utf16. replace ((0x10000 <=? ascii_upper u) && (ascii_upper u <=? 0x10FFFF)) with false.
  - reflexivity.
  - symmetry. apply andb_false_iff. left. apply Z.leb_gt.
    assert (Hr : ascii_upper u <= u) by (unfold ascii_upper; destruct (_ && _); lia).
    unfold is_base36_lower in Hu. apply orb_true_iff in Hu.
    destruct Hu as [Hu|Hu]; apply andb_true_iff in Hu;
      destruct Hu as [_ Hu]; apply Z.leb_le in Hu; lia.
Qed.

Lemma ascii_upper_base36 (u : Z) : is_base36_lower u = true -> is_base36_upper (ascii_upper u) = true.
Proof.
  unfold is_base36_lower, is_base36_upper, ascii_upper. intros H.
  apply orb_true_iff in H. destruct H as [H|H]; apply andb_true_iff in H; destruct H as [H1 H2];
    apply Z.leb_le in H1, H2.
  - replace ((97 <=? u) && (u <=? 122)) with false
      by (symmetry; apply andb_false_iff; left; apply Z.leb_gt; lia).
    apply orb_true_iff. left. apply andb_true_iff. split; apply Z.leb_le; lia.
  - replace ((97 <=? u) && (u <=? 122)) with true
      by (symmetry; apply andb_true_iff; split; apply Z.leb_le; lia).
    apply orb_true_iff. right. apply andb_true_iff. split; apply Z.leb_le; lia.
Qed.

(* ------------------------------------------------------------------------- *)
(** ** Hosting *)

(** Claim C1. A host action with a non-blank name whose two inserts succeed
    (both requests reach the store, and the generated code is not already
    taken, so that neither the UNIQUE constraint on [code] nor the foreign
    key rejects them) appends exactly one Room row and exactly one Player row,
    the latter with [is_host = true], the host's name and the new room's id;
    the client enters the room view with [currentRoom] and [currentPlayer]
    set to the two created rows. *)
Theorem hostRoom_creates_room_and_host (k : Z) (c : client) (w : world) :
  blank (playerName c) = false ->
  goes_through w 0 = true ->
  goes_through w 1 = true ->
  existsb (fun r => jsstr_eqb (code r) (generateRoomCode k)) (rooms (store w)) = false ->
  exists (r : room) (p : player),
    let '(c', w', _) := hostRoom k c w in
    rooms (store w') = rooms (store w) ++ [r] /\
    players (store w') = players (store w) ++ [p] /\
    is_host p = true /\ player_room_id p = room_id r /\ name p = playerName c /\
    code r = generateRoomCode k /\
    currentView c' = InRoomView /\ currentRoom c' = Some r /\ currentPlayer c' = Some p.
Proof.
  intros Hname H0 H1 Hfresh.
  unfold hostRoom. rewrite Hname.
  rewrite (call_through w _ H0). unfold insert_room. rewrite Hfresh. cbn [fst snd].
  set (r := mkRoom (next_id (store w)) (generateRoomCode k) (playerName c) 5 (clock (store w))).
  rewrite call_through by (rewrite goes_through_tl; exact H1).
  unfold insert_player. cbn [store rooms].
  rewrite (existsb_room_id_app (rooms (store w)) r). cbn.
  eexists r, _. repeat split; reflexivity.
Qed.

(** Witness of C1: "Alice" hosts on an empty store. *)
Lemma hostRoom_creates_room_and_host_witness :
  exists r p,
    let '(c', w', _) := hostRoom (dbl_one / 2) (onPlayerNameChange (js "Alice") initial_client)
                                 (mkWorld (mkDb [] [] 1 100) []) in
    rooms (store w') = [] ++ [r] /\ players (store w') = [] ++ [p] /\
    is_host p = true /\ player_room_id p = room_id r /\ name p = (js "Alice") /\
    code r = generateRoomCode (dbl_one / 2) /\
    currentView c' = InRoomView /\ currentRoom c' = Some r /\ currentPlayer c' = Some p.
Proof.
  apply (hostRoom_creates_room_and_host (dbl_one / 2) (onPlayerNameChange (js "Alice") initial_client)
           (mkWorld (mkDb [] [] 1 100) [])); vm_compute; reflexivity.
Defined.

(* ------------------------------------------------------------------------- *)
(** ** Joining *)

Lemma filter_none {A} (f : A -> bool) (l : list A) :
  (forall x, In x l -> f x = false) -> filter f l = [].
Proof.
  induction l as [|x l IH]; intros H; simpl; [reflexivity|].
  rewrite (H x (or_introl eq_refl)). apply IH. intros y Hy. apply H. right. exact Hy.
Qed.

Lemma set_loading_false_true (c : client) :
  loading c = false -> set_loading false (set_loading true c) = c.
Proof.
  destruct c; simpl. intros ->. reflexivity.
Qed.

(** Claim C2. A join whose room lookup returns the room [r] and whose count
    query returns at least [max_players r] rows of that room is rejected with
    "Room full": the store is left as it is (no Player row is created) and
    the client state is the one before the action (the Join button is only
    enabled while [loading] is false). *)
Theorem joinRoom_full_room_rejected (c : client) (w : world) (r : room) :
  loading c = false ->
  blank (playerName c) = false ->
  blank (roomCode c) = false ->
  goes_through w 0 = true ->
  goes_through w 1 = true ->
  filter (fun q => jsstr_eqb (code q) (toUpperCase (roomCode c))) (rooms (store w)) = [r] ->
  Z.of_nat (List.length (filter (in_room (room_id r)) (players (store w)))) >= max_players r ->
  let '(c', w', t) := joinRoom c w in
  c' = c /\ store w' = store w /\ t = [RoomFull] /\ currentView c' = currentView c.
Proof.
  intros Hload Hname Hcode H0 H1 Hsel Hfull.
  unfold joinRoom. rewrite Hname, Hcode.
  rewrite (call_through w _ H0). unfold select_room_by_code. rewrite Hsel. cbn [fst snd].
  rewrite call_through by (rewrite goes_through_tl; exact H1).
  unfold select_players_in. cbn [fst snd store].
  assert (Hge : (Z.of_nat (List.length (filter (in_room (room_id r)) (players (store w))))
                  >=? max_players r) = true) by (apply Z.geb_le; lia).
  rewrite Hge. rewrite (set_loading_false_true c Hload). repeat split; reflexivity.
Qed.

(** Witness of C2: the room "ABC" with [max_players = 2] already holds two
    players; "Carol" tries to join it with the code "abc". *)
Definition full_room : room := mkRoom 1 (js "ABC") (js "Alice") 2 100.

Definition full_store : db :=
  mkDb [full_room] [mkPlayer 2 1 (js "Alice") true 101; mkPlayer 3 1 (js "Bob") false 102] 4 103.

Definition carol_joining : client := mkClient Landing (js "Carol") (js "abc") None None [] false.

Lemma joinRoom_full_room_rejected_witness :
  let '(c', w', t) := joinRoom carol_joining (mkWorld full_store []) in
  c' = carol_joining /\ store w' = full_store /\ t = [RoomFull] /\
  currentView c' = currentView carol_joining.
Proof.
  apply (joinRoom_full_room_rejected carol_joining (mkWorld full_store []) full_room);
    vm_compute; first [reflexivity | discriminate].
Defined.

(** Claim C4. A join with a non-blank name (one that passes the [trim]
    check) and a non-blank code for which no room has the code the lookup
    compares against ([toUpperCase] of the entered code) is reported as
    "Room not found", whatever the network does; no row is created or
    modified and the client state is the one before the action. *)
Theorem joinRoom_unknown_code_not_found (c : client) (w : world) :
  loading c = false ->
  blank (playerName c) = false ->
  blank (roomCode c) = false ->
  (forall r, In r (rooms (store w)) -> code r <> toUpperCase (roomCode c)) ->
  let '(c', w', t) := joinRoom c w in
  c' = c /\ store w' = store w /\ t = [RoomNotFound] /\ currentView c' = currentView c.
Proof.
  intros Hload Hname Hcode Hnone.
  unfold joinRoom. rewrite Hname, Hcode.
  assert (Hnil : filter (fun q => jsstr_eqb (code q) (toUpperCase (roomCode c)))
                        (rooms (store w)) = []).
  { apply filter_none. intros x Hx. apply jsstr_eqb_neq. exact (Hnone x Hx). }
  destruct (goes_through w 0) eqn:H0.
  - rewrite (call_through w _ H0). unfold select_room_by_code. rewrite Hnil. cbn [fst snd].
    rewrite (set_loading_false_true c Hload). repeat split; reflexivity.
  - rewrite (call_fails w _ H0). cbn [store].
    rewrite (set_loading_false_true c Hload). repeat split; reflexivity.
Qed.

(** Witness of C4: "Carol" enters the code "xyz" while only "ABC" exists. *)
Lemma joinRoom_unknown_code_not_found_witness :
  let c := set_roomCode (js "xyz") carol_joining in
  let '(c', w', t) := joinRoom c (mkWorld full_store []) in
  c' = c /\ store w' = full_store /\ t = [RoomNotFound] /\ currentView c' = currentView c.
Proof.
  apply (joinRoom_unknown_code_not_found (set_roomCode (js "xyz") carol_joining)
           (mkWorld full_store [])); try (vm_compute; reflexivity).
  intros r Hr. vm_compute in Hr. destruct Hr as [<- | []]. vm_compute. discriminate.
Defined.

(** Claim C8. The join is case-insensitive in the code: the lookup key of
    the code [toUpperCase s] is the lookup key of [s], and the join run with
    the code [toUpperCase s] has the outcome (client state, store, network,
    toasts) of the join run with [s], the entered code field apart. This
    holds for the full Unicode case map, where one character may become
    several: the sharp s (U+00DF) becomes "SS". *)
Theorem joinRoom_code_case_insensitive (c : client) (w : world) (s : jsstring) :
  toUpperCase [0xDF] = js "SS" /\
  toUpperCase (toUpperCase s) = toUpperCase s /\
  joinRoom (set_roomCode (toUpperCase s) c) w =
  (let '(c', w', t) := joinRoom (set_roomCode s c) w in (set_roomCode (toUpperCase s) c', w', t)).
Proof.
  split; [vm_compute; reflexivity|]. split; [apply toUpperCase_idem|].
  destruct c as [v pn rc cr cp ps ld]. unfold joinRoom. cbn [playerName roomCode set_roomCode].
  rewrite blank_toUpperCase, toUpperCase_idem.
  destruct (blank pn); [reflexivity|]. destruct (blank s); [reflexivity|].
  destruct (call w (fun d => select_room_by_code d (toUpperCase s))) as [[roomData|e1] w1];
    [|reflexivity].
  destruct (call w1 (fun d => select_players_in d (room_id roomData))) as [[ex|e2] w2];
    [|reflexivity].
  destruct (_ >=? _); [reflexivity|].
  destruct (call w2 _) as [[pd|e3] w3]; reflexivity.
Qed.

(* ------------------------------------------------------------------------- *)
(** ** Leaving *)

Lemma delete_room_by_id_clears (d : db) (rid : Z) :
  (forall q, In q (rooms (snd (delete_room_by_id d rid))) -> room_id q <> rid) /\
  (forall q, In q (players (snd (delete_room_by_id d rid))) -> player_room_id q <> rid).
Proof.
  unfold delete_room_by_id, room_eqb_id, in_room; cbn [snd rooms players].
  split; intros q Hq; apply filter_In in Hq; destruct Hq as [_ Hq];
    apply negb_true_iff, Z.eqb_neq in Hq; exact Hq.
Qed.

Lemma filter_idem {A} (f : A -> bool) (l : list A) : filter f (filter f l) = filter f l.
Proof.
  induction l as [|x l IH]; simpl; [reflexivity|].
  destruct (f x) eqn:Hx; simpl; [rewrite Hx, IH|]; auto.
Qed.

(** The lobby as the host Alice sees it, with the guest Bob in the room. *)
Definition alice_room : room := mkRoom 1 (js "ABC123") (js "Alice") 5 100.
Definition alice_p : player := mkPlayer 2 1 (js "Alice") true 101.
Definition bob_p : player := mkPlayer 3 1 (js "Bob") false 102.
Definition lobby_store : db := mkDb [alice_room] [alice_p; bob_p] 4 103.
Definition alice_in_room : client :=
  mkClient InRoomView (js "Alice") [] (Some alice_room) (Some alice_p) [alice_p; bob_p] false.
Definition bob_in_room : client :=
  mkClient InRoomView (js "Bob") (js "ABC123") (Some alice_room) (Some bob_p) [alice_p; bob_p] false.

(** Claim C3 (as amended). When the host leaves and the room delete reaches
    the store, no Room row and no Player row of that room remain (the
    cascade removes the guests' rows and the host's own), and the leaving
    client is back on the landing view. *)
Theorem leaveRoom_host_tears_down_room (c : client) (w : world) (p : player) (r : room) :
  currentPlayer c = Some p ->
  currentRoom c = Some r ->
  is_host p = true ->
  player_room_id p = room_id r ->
  goes_through w 1 = true ->
  let '(c', w', _) := leaveRoom c w in
  (forall q, In q (rooms (store w')) -> room_id q <> room_id r) /\
  (forall q, In q (players (store w')) -> player_room_id q <> room_id r) /\
  ~ In p (players (store w')) /\
  currentView c' = Landing /\ currentRoom c' = None /\ currentPlayer c' = None.
Proof.
  intros Hp Hr Hhost Hrid H1.
  assert (Hend : forall d, let d' := snd (delete_room_by_id d (room_id r)) in
    (forall q, In q (rooms d') -> room_id q <> room_id r) /\
    (forall q, In q (players d') -> player_room_id q <> room_id r) /\ ~ In p (players d')).
  { intros d d'. destruct (delete_room_by_id_clears d (room_id r)) as [Hrm Hpl].
    split; [exact Hrm|]. split; [exact Hpl|]. intros Hin. exact (Hpl p Hin Hrid). }
  unfold leaveRoom. rewrite Hp, Hr, Hhost.
  destruct (goes_through w 0) eqn:H0.
  - rewrite (call_through w _ H0). cbn [fst snd].
    rewrite call_through by (rewrite goes_through_tl; exact H1). cbn [fst snd store].
    destruct (Hend (snd (delete_player_by_id (store w) (player_id p)))) as (A & B & C).
    repeat split; assumption.
  - rewrite (call_fails w _ H0). cbn [fst snd].
    rewrite call_through by (rewrite goes_through_tl; exact H1). cbn [fst snd store].
    destruct (Hend (store w)) as (A & B & C).
    repeat split; assumption.
Qed.

(** Witness of C3: Alice leaves with every request going through. *)
Lemma leaveRoom_host_tears_down_room_witness :
  let '(c', w', _) := leaveRoom alice_in_room (mkWorld lobby_store []) in
  (forall q, In q (rooms (store w')) -> room_id q <> room_id alice_room) /\
  (forall q, In q (players (store w')) -> player_room_id q <> room_id alice_room) /\
  ~ In alice_p (players (store w')) /\
  currentView c' = Landing /\ currentRoom c' = None /\ currentPlayer c' = None.
Proof.
  apply (leaveRoom_host_tears_down_room alice_in_room (mkWorld lobby_store []) alice_p alice_room);
    reflexivity.
Defined.

(** Counterexample to claim C3 as stated: Alice leaves, her own delete goes
    through but the room delete fails. The leave ignores the error; Alice is
    back on the landing view while the room row and Bob's row remain. *)
Lemma leaveRoom_host_room_delete_fails :
  let '(c', w', _) := leaveRoom alice_in_room (mkWorld lobby_store [true; false]) in
  currentView c' = Landing /\ rooms (store w') = [alice_room] /\ players (store w') = [bob_p].
Proof.
  vm_compute. repeat split.
Qed.

(** Claim C5 (as amended). When a guest leaves, the Room rows and every
    Player row with another id are left exactly as they were, whatever the
    network does; when the delete reaches the store, the guest's row is gone
    and the client is back on the landing view. *)
Theorem leaveRoom_guest_removes_only_own_row (c : client) (w : world) (p : player) (r : room) :
  currentPlayer c = Some p ->
  currentRoom c = Some r ->
  is_host p = false ->
  let '(c', w', _) := leaveRoom c w in
  rooms (store w') = rooms (store w) /\
  filter (fun q => negb (player_id q =? player_id p)) (players (store w')) =
    filter (fun q => negb (player_id q =? player_id p)) (players (store w)) /\
  (goes_through w 0 = true ->
   (forall q, In q (players (store w')) -> player_id q <> player_id p) /\
   currentView c' = Landing /\ currentRoom c' = None /\ currentPlayer c' = None).
Proof.
  intros Hp Hr Hguest.
  unfold leaveRoom. rewrite Hp, Hr, Hguest.
  destruct (goes_through w 0) eqn:H0.
  - rewrite (call_through w _ H0). unfold delete_player_by_id. cbn [fst snd store rooms players].
    split; [reflexivity|]. split; [apply filter_idem|].
    intros _. repeat split.
    intros q Hq. apply filter_In in Hq. destruct Hq as [_ Hq].
    apply negb_true_iff, Z.eqb_neq in Hq. exact Hq.
  - rewrite (call_fails w _ H0). cbn [store].
    split; [reflexivity|]. split; [reflexivity|]. discriminate.
Qed.

(** Witness of C5: Bob leaves Alice's room. *)
Lemma leaveRoom_guest_removes_only_own_row_witness :
  let '(c', w', _) := leaveRoom bob_in_room (mkWorld lobby_store []) in
  rooms (store w') = rooms lobby_store /\
  filter (fun q => negb (player_id q =? player_id bob_p)) (players (store w')) =
    filter (fun q => negb (player_id q =? player_id bob_p)) (players lobby_store) /\
  (goes_through (mkWorld lobby_store []) 0 = true ->
   (forall q, In q (players (store w')) -> player_id q <> player_id bob_p) /\
   currentView c' = Landing /\ currentRoom c' = None /\ currentPlayer c' = None).
Proof.
  apply (leaveRoom_guest_removes_only_own_row bob_in_room (mkWorld lobby_store []) bob_p alice_room);
    reflexivity.
Defined.

(** Counterexample to claim C5 as stated: Bob's delete fails; the leave
    ignores the error and Bob's row is still in the store. *)
Lemma leaveRoom_guest_delete_fails :
  let '(c', w', _) := leaveRoom bob_in_room (mkWorld lobby_store [false]) in
  currentView c' = Landing /\ In bob_p (players (store w')).
Proof.
  vm_compute. split; [reflexivity|]. right. left. reflexivity.
Qed.

(* ------------------------------------------------------------------------- *)
(** ** Starting the game *)

(** Claim C6. [startGame] navigates exactly when there is a room, the local
    player is the host and the roster holds at least 2 players. For the host
    of a room with fewer than 2 players it shows "Not enough players"
    instead, and the rendered Start Game button is disabled with the label
    "(Need 2 - n more)". Without a room, or for a player who is not the
    host, it does nothing. *)
Theorem startGame_host_only_two_players (c : client) :
  (startGame c = NavigateGame <->
   exists r p, currentRoom c = Some r /\ currentPlayer c = Some p /\ is_host p = true /\
               2 <= Z.of_nat (List.length (players_ c))) /\
  (forall r p, currentRoom c = Some r -> currentPlayer c = Some p -> is_host p = true ->
   Z.of_nat (List.length (players_ c)) < 2 ->
   startGame c = StartToast NotEnoughPlayers /\
   render_start_button c =
     Some (mkStartButton true (Some (2 - Z.of_nat (List.length (players_ c)))))) /\
  ((currentRoom c = None \/ forall p, currentPlayer c = Some p -> is_host p = false) ->
   startGame c = NoEffect).
Proof.
  unfold startGame, render_start_button.
  destruct c as [v pn rc [r|] [p|] ps ld]; cbn [currentRoom currentPlayer players_].
  - set (n := Z.of_nat (List.length ps)).
    split; [|split].
    + split.
      * intros H. destruct (is_host p) eqn:Hh; [|discriminate].
        destruct (n <? 2) eqn:Hn; [discriminate|]. apply Z.ltb_ge in Hn.
        exists r, p. repeat split; auto.
      * intros (r' & p' & _ & Hp & Hh & Hn). injection Hp as <-. rewrite Hh.
        replace (n <? 2) with false by (symmetry; apply Z.ltb_ge; exact Hn). reflexivity.
    + intros r' p' _ Hp Hh Hn. injection Hp as <-. rewrite Hh.
      replace (n <? 2) with true by (symmetry; apply Z.ltb_lt; exact Hn). split; reflexivity.
    + intros [H|H]; [discriminate|]. rewrite (H p eq_refl). reflexivity.
  - split; [|split].
    + split; [discriminate|]. intros (r' & p' & _ & Hp & _). discriminate.
    + intros r' p' _ Hp. discriminate.
    + reflexivity.
  - split; [|split].
    + split; [discriminate|]. intros (r' & p' & Hr & _). discriminate.
    + intros r' p' Hr. discriminate.
    + reflexivity.
  - split; [|split].
    + split; [discriminate|]. intros (r' & p' & Hr & _). discriminate.
    + intros r' p' Hr. discriminate.
    + reflexivity.
Qed.

(* ------------------------------------------------------------------------- *)
(** ** Roster refresh and the order of the displayed roster *)

(** The roster is non-decreasing in [joined_at]. *)
Fixpoint nondecreasing (l : list player) : bool :=
  match l with
  | a :: ((b :: _) as t) => (joined_at a <=? joined_at b) && nondecreasing t
  | _ => true
  end.

(** One step of the whole lobby as the client sees it: an input, one of its
    actions, a change made to the store by another client, the room-delete
    notification, or a roster refresh. A refresh is [fetchPlayers] run to
    completion, or the late arrival of the response of a refresh issued for
    some room against some earlier or later snapshot of the store, so that
    responses may arrive in any order and be stale. *)
Inductive lobby_step : client * world -> client * world -> Prop :=
| step_name_input s c w : lobby_step (c, w) (onPlayerNameChange s c, w)
| step_code_input s c w : lobby_step (c, w) (onRoomCodeChange s c, w)
| step_host k c w c' w' t : hostRoom k c w = (c', w', t) -> lobby_step (c, w) (c', w')
| step_join c w c' w' t : joinRoom c w = (c', w', t) -> lobby_step (c, w) (c', w')
| step_leave c w c' w' t : leaveRoom c w = (c', w', t) -> lobby_step (c, w) (c', w')
| step_other_client c w d : lobby_step (c, w) (c, mkWorld d (net w))
| step_room_deleted c w : lobby_step (c, w) (fst (onRoomDeleted c), w)
| step_fetch c w : lobby_step (c, w) (fetchPlayers c w)
| step_late_response rid d c w :
    lobby_step (c, w) (set_players (order_by_joined_at (filter (in_room rid) (players d))) c, w).

Inductive reachable : client * world -> Prop :=
| reach_init w : reachable (initial_client, w)
| reach_step s s' : reachable s -> lobby_step s s' -> reachable s'.

Lemma insert_by_joined_at_after (p : player) (l : list player) (q : player) :
  nondecreasing (q :: l) = true -> joined_at q <= joined_at p ->
  nondecreasing (q :: insert_by_joined_at p l) = true.
Proof.
  revert q. induction l as [|q' l IH]; intros q Hs Hle; cbn [insert_by_joined_at].
  - cbn. rewrite (proj2 (Z.leb_le _ _) Hle). reflexivity.
  - cbn [nondecreasing] in Hs. apply andb_true_iff in Hs. destruct Hs as [Hqq' Hs].
    destruct (joined_at p <? joined_at q') eqn:E.
    + apply Z.ltb_lt in E. cbn [nondecreasing].
      rewrite (proj2 (Z.leb_le _ _) Hle), (proj2 (Z.leb_le _ _) (Z.lt_le_incl _ _ E)), Hs.
      reflexivity.
    + apply Z.ltb_ge in E. cbn [nondecreasing]. rewrite Hqq'. cbn [andb].
      exact (IH q' Hs E).
Qed.

Lemma insert_by_joined_at_sorted (p : player) (l : list player) :
  nondecreasing l = true -> nondecreasing (insert_by_joined_at p l) = true.
Proof.
  destruct l as [|q l]; intros Hs; [reflexivity|]. cbn [insert_by_joined_at].
  destruct (joined_at p <? joined_at q) eqn:E.
  - apply Z.ltb_lt in E.
    change (nondecreasing (p :: q :: l)) with ((joined_at p <=? joined_at q) && nondecreasing (q :: l)).
    rewrite (proj2 (Z.leb_le _ _) (Z.lt_le_incl _ _ E)), Hs. reflexivity.
  - apply Z.ltb_ge in E. exact (insert_by_joined_at_after p l q Hs E).
Qed.

Lemma order_by_joined_at_sorted (l : list player) : nondecreasing (order_by_joined_at l) = true.
Proof.
  induction l as [|p l IH]; [reflexivity|]. apply insert_by_joined_at_sorted, IH.
Qed.

Lemma insert_by_joined_at_perm (p : player) (l : list player) :
  Permutation (insert_by_joined_at p l) (p :: l).
Proof.
  induction l as [|q l IH]; cbn [insert_by_joined_at]; [reflexivity|].
  destruct (joined_at p <? joined_at q); [reflexivity|].
  rewrite IH. apply perm_swap.
Qed.

Lemma order_by_joined_at_perm (l : list player) : Permutation (order_by_joined_at l) l.
Proof.
  induction l as [|p l IH]; [reflexivity|]. cbn [order_by_joined_at].
  rewrite insert_by_joined_at_perm, IH. reflexivity.
Qed.

Lemma hostRoom_keeps_roster (k : Z) (c : client) (w : world) :
  players_ (fst (fst (hostRoom k c w))) = players_ c.
Proof.
  unfold hostRoom. destruct (blank (playerName c)); [reflexivity|].
  destruct (call w _) as [[rd|e1] w1]; [|destruct c; reflexivity].
  destruct (call w1 _) as [[pd|e2] w2]; destruct c; reflexivity.
Qed.

Lemma joinRoom_keeps_roster (c : client) (w : world) :
  players_ (fst (fst (joinRoom c w))) = players_ c.
Proof.
  unfold joinRoom. destruct (blank (playerName c)); [reflexivity|].
  destruct (blank (roomCode c)); [reflexivity|].
  destruct (call w _) as [[rd|e1] w1]; [|destruct c; reflexivity].
  destruct (call w1 _) as [[ex|e2] w2]; [|destruct c; reflexivity].
  destruct (_ >=? _); [destruct c; reflexivity|].
  destruct (call w2 _) as [[pd|e3] w3]; destruct c; reflexivity.
Qed.

Lemma leaveRoom_roster (c : client) (w : world) :
  players_ (fst (fst (leaveRoom c w))) = players_ c \/ players_ (fst (fst (leaveRoom c w))) = [].
Proof.
  unfold leaveRoom. destruct (currentPlayer c) as [p|]; [|left; reflexivity].
  destruct (currentRoom c) as [r|]; [|left; reflexivity].
  destruct (call w _) as [x w1]. right. reflexivity.
Qed.

Lemma fetchPlayers_success (c : client) (w : world) (r : room) :
  currentRoom c = Some r -> goes_through w 0 = true ->
  players_ (fst (fetchPlayers c w)) =
    order_by_joined_at (filter (in_room (room_id r)) (players (store w))).
Proof.
  intros Hr H0. unfold fetchPlayers. rewrite Hr, (call_through w _ H0). reflexivity.
Qed.

Lemma fetchPlayers_roster (c : client) (w : world) :
  players_ (fst (fetchPlayers c w)) = players_ c \/
  exists rid d, players_ (fst (fetchPlayers c w)) =
                order_by_joined_at (filter (in_room rid) (players d)).
Proof.
  unfold fetchPlayers. destruct (currentRoom c) as [r|]; [|left; reflexivity].
  destruct (goes_through w 0) eqn:H0.
  - rewrite (call_through w _ H0). right. exists (room_id r), (store w). reflexivity.
  - rewrite (call_fails w _ H0). left. reflexivity.
Qed.

(** Claim C7. A refresh whose query succeeds replaces the roster by the
    room's Player rows of the store in ascending [joined_at] order (a
    permutation of those rows, non-decreasing in [joined_at]); and in every
    reachable state, whatever the order in which refreshes complete, the
    displayed roster is non-decreasing in [joined_at]. *)
Theorem roster_ordered_by_joined_at :
  (forall c w r, currentRoom c = Some r -> goes_through w 0 = true ->
   players_ (fst (fetchPlayers c w)) =
     order_by_joined_at (filter (in_room (room_id r)) (players (store w))) /\
   Permutation (players_ (fst (fetchPlayers c w))) (filter (in_room (room_id r)) (players (store w))) /\
   nondecreasing (players_ (fst (fetchPlayers c w))) = true) /\
  (forall s, reachable s -> nondecreasing (players_ (fst s)) = true).
Proof.
  split.
  - intros c w r Hr H0. rewrite (fetchPlayers_success c w r Hr H0).
    split; [reflexivity|]. split; [apply order_by_joined_at_perm|apply order_by_joined_at_sorted].
  - intros s Hreach. induction Hreach as [w|s s' _ IH Hstep]; [reflexivity|].
    destruct Hstep as [s0 c w|s0 c w|k c w c' w' t E|c w c' w' t E|c w c' w' t E|c w d|c w|c w|rid d c w];
      cbn [fst] in *.
    + destruct c; exact IH.
    + destruct c; exact IH.
    + pose proof (hostRoom_keeps_roster k c w) as Hk. rewrite E in Hk. cbn in Hk. rewrite Hk. exact IH.
    + pose proof (joinRoom_keeps_roster c w) as Hk. rewrite E in Hk. cbn in Hk. rewrite Hk. exact IH.
    + pose proof (leaveRoom_roster c w) as Hk. rewrite E in Hk. cbn in Hk.
      destruct Hk as [-> | ->]; [exact IH|reflexivity].
    + exact IH.
    + reflexivity.
    + destruct (fetchPlayers_roster c w) as [-> | (rid & d & ->)];
        [exact IH|apply order_by_joined_at_sorted].
    + apply order_by_joined_at_sorted.
Qed.

(* ------------------------------------------------------------------------- *)
(** ** Room capacity *)

Lemma call_insert_player_rooms (w : world) (rid : Z) (n : jsstring) (h : bool) :
  rooms (store (snd (call w (fun d => insert_player d rid n h)))) = rooms (store w).
Proof.
  unfold call, insert_player.
  destruct (net w) as [|[|] rest]; cbn [snd store]; try reflexivity;
    destruct (existsb (room_eqb_id rid) (rooms (store w))); reflexivity.
Qed.

Lemma call_insert_room_rooms (w : world) (cd h : jsstring) (m : Z) (r : room) :
  In r (rooms (store (snd (call w (fun d => insert_room d cd h (Some m)))))) ->
  In r (rooms (store w)) \/ max_players r = m.
Proof.
  unfold call, insert_room.
  destruct (net w) as [|[|] rest]; cbn [snd store]; try (left; assumption);
    destruct (existsb _ (rooms (store w))); cbn [snd store rooms]; try (left; assumption);
    intros H; apply in_app_or in H; destruct H as [H|[<-|[]]]; auto.
Qed.

(** Claim C9. A room inserted without a [max_players] value gets the
    column default 4; every room row the host action adds to the store has
    [max_players = 5]. *)
Theorem room_capacity_default_and_client_value :
  (forall d cd h r d', insert_room d cd h None = (Ok r, d') -> max_players r = max_players_default) /\
  max_players_default = 4 /\
  (forall k c w, let '(_, w', _) := hostRoom k c w in
   forall r, In r (rooms (store w')) -> ~ In r (rooms (store w)) -> max_players r = 5).
Proof.
  split; [|split; [reflexivity|]].
  - intros d cd h r d' E. unfold insert_room in E.
    destruct (existsb _ _); [discriminate|]. injection E as <- _. reflexivity.
  - intros k c w. unfold hostRoom. destruct (blank (playerName c)).
    { intros r Hin Hout. contradiction. }
    destruct (call w (fun d => insert_room d (generateRoomCode k) (playerName c) (Some 5)))
      as [r1 w1] eqn:E1.
    assert (Hw1 : forall r, In r (rooms (store w1)) -> ~ In r (rooms (store w)) -> max_players r = 5).
    { intros r Hin Hout.
      assert (Hin' : In r (rooms (store (snd (call w (fun d =>
                       insert_room d (generateRoomCode k) (playerName c) (Some 5))))))) by
        (rewrite E1; exact Hin).
      destruct (call_insert_room_rooms _ _ _ _ r Hin') as [H|H]; [contradiction|exact H]. }
    destruct r1 as [rd|e1]; [|exact Hw1].
    pose proof (call_insert_player_rooms w1 (room_id rd) (playerName c) true) as Hp.
    destruct (call w1 (fun d => insert_player d (room_id rd) (playerName c) true)) as [[pd|e2] w2];
      cbn [snd] in Hp; intros r Hin Hout; rewrite Hp in Hin; exact (Hw1 r Hin Hout).
Qed.

(* ------------------------------------------------------------------------- *)
(** ** Room codes: binary64 arithmetic and the radix-36 conversion *)

Lemma round_div_spec (a b : Z) :
  0 < b -> a / b <= round_div a b <= a / b + 1 /\ 2 * Z.abs (round_div a b * b - a) <= b.
Proof.
  intros Hb. unfold round_div.
  pose proof (Z.div_mod a b ltac:(lia)). pose proof (Z.mod_pos_bound a b Hb).
  destruct (b <? 2 * (a mod b)) eqn:E1; [apply Z.ltb_lt in E1; lia|apply Z.ltb_ge in E1].
  destruct (2 * (a mod b) <? b) eqn:E2; [apply Z.ltb_lt in E2; lia|apply Z.ltb_ge in E2].
  destruct (Z.even (a / b)); lia.
Qed.

Lemma log2_div_le (n d : Z) : 1 <= d -> Z.log2 (n / d) <= Z.log2 n.
Proof.
  intros Hd. destruct (Z.le_gt_cases n 0) as [Hn|Hn].
  - rewrite (Z.log2_nonpos n) by lia.
    destruct (Z.le_gt_cases d 1); [replace d with 1 by lia; rewrite Z.div_1_r, Z.log2_nonpos by lia; lia|].
    rewrite Z.log2_nonpos; [lia|]. apply Z.div_le_upper_bound; lia.
  - apply Z.log2_le_mono. apply Z.div_le_upper_bound; nia.
Qed.

(** Rounding error: at most half a unit in the last place of the result's
    scale. *)
Lemma round_units_error (n d : Z) :
  0 < n -> 0 < d ->
  let s := Z.max 0 (Z.log2 (n / d) - 52) in
  2 * Z.abs (round_units n d * d - n) <= d * 2 ^ s.
Proof.
  intros Hn Hd s. unfold round_units. replace (n <=? 0) with false by (symmetry; apply Z.leb_gt; lia).
  fold s. assert (Hs : 0 < 2 ^ s) by (apply Z.pow_pos_nonneg; lia).
  destruct (round_div_spec n (d * 2 ^ s) ltac:(nia)) as [_ H].
  replace (round_div n (d * 2 ^ s) * 2 ^ s * d) with (round_div n (d * 2 ^ s) * (d * 2 ^ s)) by ring.
  exact H.
Qed.

(** The scale of the result is within [2^-52] of the exact quotient. *)
Lemma scale_bound (n d : Z) :
  0 < n -> 0 < d ->
  let s := Z.max 0 (Z.log2 (n / d) - 52) in
  s = 0 \/ d * 2 ^ s * 2 ^ 52 <= n.
Proof.
  intros Hn Hd s. unfold s. destruct (Z.le_gt_cases (Z.log2 (n / d) - 52) 0) as [H|H].
  - left. lia.
  - right. rewrite Z.max_r by lia. rewrite <- Z.mul_assoc, <- Z.pow_add_r by lia.
    replace (Z.log2 (n / d) - 52 + 52) with (Z.log2 (n / d)) by ring.
    assert (0 < n / d).
    { destruct (Z.le_gt_cases (n / d) 0); [|lia]. rewrite Z.log2_nonpos in H by lia. lia. }
    pose proof (Z.log2_spec (n / d) ltac:(lia)) as [H1 _].
    pose proof (Z.mul_div_le n d Hd). nia.
Qed.

(** With the divisor 1: the relative error is at most [2^-53]. *)
Lemma round1_rel (x : Z) : 0 <= x -> 2 ^ 53 * Z.abs (round_units x 1 - x) <= x.
Proof.
  intros Hx. destruct (Z.eq_dec x 0) as [->|Hx0]; [reflexivity|].
  pose proof (round_units_error x 1 ltac:(lia) ltac:(lia)) as H. cbv zeta in H.
  pose proof (scale_bound x 1 ltac:(lia) ltac:(lia)) as Hs. cbv zeta in Hs.
  rewrite Z.mul_1_r in H. rewrite Z.mul_1_l in Hs.
  set (s := Z.max 0 (Z.log2 (x / 1) - 52)) in *.
  destruct Hs as [Hs|Hs].
  - rewrite Hs, Z.pow_0_r in H. assert (round_units x 1 - x = 0) by lia. rewrite H0. lia.
  - replace (2 ^ 53) with (2 * 2 ^ 52) by reflexivity. nia.
Qed.

Lemma round1_nonneg (x : Z) : 0 <= round_units x 1.
Proof.
  unfold round_units. destruct (x <=? 0) eqn:E; [lia|]. apply Z.leb_gt in E.
  set (s := Z.max 0 (Z.log2 (x / 1) - 52)).
  assert (0 < 2 ^ s) by (apply Z.pow_pos_nonneg; lia).
  destruct (round_div_spec x (1 * 2 ^ s) ltac:(lia)) as [[Hq _] _].
  assert (0 <= x / (1 * 2 ^ s)) by (apply Z.div_pos; lia). nia.
Qed.

(** A double is [m * 2^e] with a 53-bit significand [m]. *)
Lemma is_double_scaled (m e : Z) : 0 <= m < 2 ^ 53 -> 0 <= e -> is_double (m * 2 ^ e) = true.
Proof.
  intros Hm He. unfold is_double. apply Z.eqb_eq.
  destruct (Z.eq_dec m 0) as [->|Hm0]; [reflexivity|].
  assert (Hl : Z.log2 m < 53) by (apply Z.log2_lt_pow2; lia).
  unfold ulp_exp. rewrite Z.log2_mul_pow2 by lia.
  replace e with ((e - Z.max 0 (e + Z.log2 m - 52)) + Z.max 0 (e + Z.log2 m - 52)) at 1 by ring.
  rewrite Z.pow_add_r by lia. rewrite Z.mul_assoc. apply Z.mod_mul.
  apply Z.pow_nonzero; lia.
Qed.

Lemma is_double_inv (y : Z) :
  0 <= y -> is_double y = true ->
  y = y / 2 ^ ulp_exp y * 2 ^ ulp_exp y /\ 0 <= y / 2 ^ ulp_exp y < 2 ^ 53.
Proof.
  intros Hy Hd. unfold is_double in Hd. apply Z.eqb_eq in Hd.
  assert (Hp : 0 < 2 ^ ulp_exp y) by (apply Z.pow_pos_nonneg; unfold ulp_exp; lia).
  pose proof (Z.div_mod y (2 ^ ulp_exp y) ltac:(lia)) as Hdm. rewrite Hd, Z.add_0_r in Hdm.
  split; [lia|]. split; [apply Z.div_pos; lia|].
  destruct (Z.eq_dec y 0) as [->|Hy0]; [rewrite Z.div_0_l by lia; lia|].
  apply Z.div_lt_upper_bound; [lia|]. rewrite <- Z.pow_add_r by (unfold ulp_exp; lia).
  pose proof (Z.log2_spec y ltac:(lia)) as [_ H]. unfold ulp_exp.
  apply (Z.lt_le_trans _ _ _ H). apply Z.pow_le_mono_r; lia.
Qed.

(** A double is its own rounding. *)
Lemma round_double (x : Z) : 0 <= x -> is_double x = true -> round_units x 1 = x.
Proof.
  intros Hx Hd. unfold round_units. destruct (x <=? 0) eqn:E; [apply Z.leb_le in E; lia|].
  rewrite Z.div_1_r, Z.mul_1_l. fold (ulp_exp x).
  unfold is_double in Hd. apply Z.eqb_eq in Hd.
  assert (Hp : 0 < 2 ^ ulp_exp x) by (apply Z.pow_pos_nonneg; unfold ulp_exp; lia).
  unfold round_div. rewrite Hd. cbn [Z.mul].
  replace (2 ^ ulp_exp x <? 0) with false by (symmetry; apply Z.ltb_ge; lia).
  replace (0 <? 2 ^ ulp_exp x) with true by (symmetry; apply Z.ltb_lt; lia).
  pose proof (Z.div_mod x (2 ^ ulp_exp x) ltac:(lia)). lia.
Qed.

(** Every rounding result is a double. *)
Lemma round1_double (x : Z) : is_double (round_units x 1) = true.
Proof.
  unfold round_units. destruct (x <=? 0) eqn:E; [reflexivity|]. apply Z.leb_gt in E.
  rewrite Z.div_1_r, Z.mul_1_l.
  set (s := Z.max 0 (Z.log2 x - 52)).
  assert (Hs : 0 < 2 ^ s) by (apply Z.pow_pos_nonneg; lia).
  destruct (round_div_spec x (2 ^ s) Hs) as [[H1 H2] _].
  assert (Hq0 : 0 <= x / 2 ^ s) by (apply Z.div_pos; lia).
  assert (Hq : x / 2 ^ s < 2 ^ 53).
  { apply Z.div_lt_upper_bound; [lia|]. rewrite <- Z.pow_add_r by lia.
    pose proof (Z.log2_spec x E) as [_ H]. apply (Z.lt_le_trans _ _ _ H).
    apply Z.pow_le_mono_r; lia. }
  destruct (Z.eq_dec (round_div x (2 ^ s)) (2 ^ 53)) as [Heq|Hne].
  - rewrite Heq. replace (2 ^ 53 * 2 ^ s) with (2 ^ 52 * 2 ^ (s + 1))
      by (rewrite Z.pow_add_r by lia; change (2 ^ 53) with (2 ^ 52 * 2 ^ 1); ring).
    apply is_double_scaled; lia.
  - apply is_double_scaled; lia.
Qed.

(** A double below one is at most [1 - 2^-53]. *)
Lemma double_below_one (f : Z) :
  0 <= f < dbl_one -> is_double f = true -> f <= dbl_one - 2 ^ 1021.
Proof.
  intros Hf Hd. destruct (Z.lt_ge_cases f (2 ^ 1073)) as [H|H].
  - unfold dbl_one. change (2 ^ 1074) with (2 * 2 ^ 1073).
    assert (2 ^ 1021 <= 2 ^ 1073) by (apply Z.pow_le_mono_r; lia). lia.
  - assert (Hl : Z.log2 f = 1073).
    { apply Z.log2_unique; [lia|]. split; [lia|]. exact (proj2 Hf). }
    assert (Hu : ulp_exp f = 1021) by (unfold ulp_exp; rewrite Hl; reflexivity).
    destruct (is_double_inv f ltac:(lia) Hd) as [E [_ Hm]]. rewrite Hu in E, Hm.
    unfold dbl_one. replace (2 ^ 1074) with (2 ^ 53 * 2 ^ 1021) by reflexivity.
    set (a := 2 ^ 1021) in *. assert (0 < a) by (unfold a; apply Z.pow_pos_nonneg; lia). nia.
Qed.

Lemma fmul36_bound (f : Z) :
  0 <= f < dbl_one -> is_double f = true -> 0 <= fmul f 36 < 36 * dbl_one.
Proof.
  intros Hf Hd. unfold fmul. split; [apply round1_nonneg|].
  pose proof (double_below_one f Hf Hd) as Hb.
  pose proof (round1_rel (f * 36) ltac:(lia)) as Hr.
  set (r := round_units (f * 36) 1) in *.
  unfold dbl_one in *. replace (2 ^ 1074) with (2 ^ 53 * 2 ^ 1021) in * by reflexivity.
  set (a := 2 ^ 1021) in *. set (t := 2 ^ 53) in *.
  assert (0 < a) by (unfold a; apply Z.pow_pos_nonneg; lia).
  assert (0 < t) by (unfold t; apply Z.pow_pos_nonneg; lia).
  assert (Hr' : t * r <= (t + 1) * (f * 36)) by lia.
  assert (Hf' : (t + 1) * (f * 36) <= (t + 1) * ((t * a - a) * 36)) by nia.
  nia.
Qed.

Lemma fsub_digit_exact (f1 : Z) :
  0 <= f1 < 36 * dbl_one -> is_double f1 = true ->
  fsub f1 (f1 / dbl_one * dbl_one) = f1 - f1 / dbl_one * dbl_one /\
  is_double (f1 - f1 / dbl_one * dbl_one) = true.
Proof.
  intros Hf Hd.
  assert (Hone : 0 < dbl_one) by (unfold dbl_one; apply Z.pow_pos_nonneg; lia).
  assert (Hex : is_double (f1 - f1 / dbl_one * dbl_one) = true).
  { destruct (Z.eq_dec f1 0) as [->|Hf0]; [reflexivity|].
    destruct (is_double_inv f1 ltac:(lia) Hd) as [E Hm].
    set (e := ulp_exp f1) in *. set (m := f1 / 2 ^ e) in *.
    assert (He : e <= 1074).
    { unfold e, ulp_exp. assert (Z.log2 f1 < 1080); [|lia].
      apply Z.log2_lt_pow2; [lia|]. unfold dbl_one in Hf.
      replace (2 ^ 1080) with (2 ^ 6 * 2 ^ 1074) by reflexivity. lia. }
    assert (He0 : 0 <= e) by (unfold e, ulp_exp; lia).
    assert (Hsplit : dbl_one = 2 ^ (1074 - e) * 2 ^ e)
      by (unfold dbl_one; rewrite <- Z.pow_add_r by lia; f_equal; ring).
    set (d := f1 / dbl_one).
    assert (Hd0 : 0 <= d * dbl_one <= f1).
    { pose proof (Z.mul_div_le f1 dbl_one Hone). assert (0 <= d) by (apply Z.div_pos; lia).
      unfold d in *. nia. }
    assert (Hc : f1 - d * dbl_one = (m - d * 2 ^ (1074 - e)) * 2 ^ e) by (rewrite Hsplit; lia).
    rewrite Hc. apply is_double_scaled; [|lia].
    assert (0 < 2 ^ e) by (apply Z.pow_pos_nonneg; lia). nia. }
  split; [|exact Hex]. unfold fsub. apply round_double; [|exact Hex].
  pose proof (Z.mul_div_le f1 dbl_one Hone). lia.
Qed.

Lemma fmul36_grows (d : Z) : 1 <= d -> 18 * d <= fmul d 36.
Proof.
  intros Hd. unfold fmul. pose proof (round1_rel (d * 36) ltac:(lia)) as H.
  assert (0 < 2 ^ 53) by (apply Z.pow_pos_nonneg; lia). nia.
Qed.

Definition digit_ok (d : Z) : Prop := 0 <= d < 36.

Lemma carry_back_ok (l : list Z) :
  Forall digit_ok l -> carry_back l = None \/ exists r, carry_back l = Some r /\ Forall digit_ok r.
Proof.
  induction l as [|d l IH]; intros H; [left; reflexivity|].
  inversion H as [|? ? Hd Hl]; subst. cbn [carry_back].
  destruct (d + 1 <? 36) eqn:E.
  - right. eexists. split; [reflexivity|]. constructor; [|exact Hl].
    apply Z.ltb_lt in E. unfold digit_ok in *. lia.
  - exact (IH Hl).
Qed.

Lemma frac_loop_some (n : nat) (f dl : Z) (acc : list Z) :
  0 <= f < dbl_one -> is_double f = true -> 1 <= dl <= f ->
  dbl_one <= dl * 18 ^ Z.of_nat n -> Forall digit_ok acc ->
  exists c r, frac_loop n f dl acc = Some (c, r) /\ Forall digit_ok r.
Proof.
  revert f dl acc. induction n as [|n IH]; intros f dl acc Hf Hd Hdl Hn Hacc.
  { change (Z.of_nat 0) with 0 in Hn. rewrite Z.pow_0_r in Hn. lia. }
  assert (Hone : 0 < dbl_one) by (unfold dbl_one; apply Z.pow_pos_nonneg; lia).
  cbn [frac_loop].
  pose proof (fmul36_bound f Hf Hd) as Hf1.
  set (f1 := fmul f 36) in *.
  assert (Hd1 : is_double f1 = true) by apply round1_double.
  destruct (fsub_digit_exact f1 Hf1 Hd1) as [Ex Hd2].
  rewrite Ex.
  set (digit := f1 / dbl_one) in *.
  assert (Hdig : digit_ok digit).
  { unfold digit_ok, digit. split; [apply Z.div_pos; lia|]. apply Z.div_lt_upper_bound; lia. }
  assert (Hacc1 : Forall digit_ok (digit :: acc)) by (constructor; assumption).
  pose proof (Z.mod_pos_bound f1 dbl_one Hone).
  assert (Hf2 : 0 <= f1 - digit * dbl_one < dbl_one)
    by (pose proof (Z.div_mod f1 dbl_one ltac:(lia)); unfold digit; lia).
  pose proof (fmul36_grows dl (proj1 Hdl)) as Hg.
  destruct (_ && _).
  - destruct (carry_back_ok _ Hacc1) as [E|[r [E Hr]]]; rewrite E.
    + exists true, []. split; [reflexivity|constructor].
    + exists false, r. split; [reflexivity|exact Hr].
  - destruct (fmul dl 36 <=? f1 - digit * dbl_one) eqn:Ec.
    + apply Z.leb_le in Ec. apply IH; try assumption; try lia.
      rewrite Nat2Z.inj_succ, Z.pow_succ_r in Hn by lia.
      assert (0 < 18 ^ Z.of_nat n) by (apply Z.pow_pos_nonneg; lia). nia.
    + exists false, (digit :: acc). split; [reflexivity|exact Hacc1].
Qed.

Lemma js_substring_2_8 (s : jsstring) :
  exists n, (n <= 6)%nat /\ js_substring s 2 8 = firstn n (skipn 2 s).
Proof.
  unfold js_substring. destruct (Nat.le_gt_cases 2 (List.length s)) as [H|H].
  - exists (Nat.min 8 (List.length s) - 2)%nat. split; [lia|].
    replace (Nat.min 2 (List.length s)) with 2%nat by lia.
    replace (Nat.min 2 (Nat.min 8 (List.length s))) with 2%nat by lia.
    replace (Nat.max 2 (Nat.min 8 (List.length s))) with (Nat.min 8 (List.length s)) by lia.
    reflexivity.
  - exists 0%nat. split; [lia|].
    replace (Nat.max (Nat.min 2 (List.length s)) (Nat.min 8 (List.length s)) -
             Nat.min (Nat.min 2 (List.length s)) (Nat.min 8 (List.length s)))%nat with 0%nat by lia.
    reflexivity.
Qed.

Lemma integer_part36_0 : integer_part36 0 = Some (js "0").
Proof. vm_compute. reflexivity. Qed.

Lemma integer_part36_1 : integer_part36 dbl_one = Some (js "1").
Proof. vm_compute. reflexivity. Qed.

(** On a positive double below one, [DoubleToRadixCString] ends (the loop
    stays within its fuel) and yields ["0"], ["1"] (after a carry) or
    ["0."] followed by base-36 digits. *)
Lemma double_to_radix36_below_one (v : Z) :
  0 < v < dbl_one -> is_double v = true ->
  exists s, double_to_radix36 v = Some s /\
    (s = js "0" \/ s = js "1" \/
     exists r, s = 48 :: 46 :: map chars36 r /\ Forall digit_ok r).
Proof.
  intros Hv Hd. unfold double_to_radix36.
  rewrite Z.div_small by lia. rewrite Z.mul_0_l.
  assert (Hfr : fsub v 0 = v) by (unfold fsub; rewrite Z.sub_0_r; apply round_double; [lia|exact Hd]).
  rewrite Hfr.
  set (dl := Z.max 1 (fhalf (fsub (next_double v) v))).
  destruct (dl <=? v) eqn:Hdl.
  - apply Z.leb_le in Hdl.
    assert (Hfuel : dbl_one <= dl * 18 ^ Z.of_nat 1100).
    { assert (dbl_one <= 18 ^ Z.of_nat 1100) by (vm_compute; discriminate).
      assert (1 <= dl) by (unfold dl; lia).
      assert (0 <= 18 ^ Z.of_nat 1100) by (apply Z.pow_nonneg; lia). nia. }
    destruct (frac_loop_some 1100 v dl [] ltac:(lia) Hd ltac:(unfold dl in *; lia) Hfuel (Forall_nil _))
      as (c & r & E & Hr).
    rewrite E. destruct c.
    + replace (fadd 0 dbl_one) with dbl_one by (vm_compute; reflexivity).
      rewrite integer_part36_1. eexists. split; [reflexivity|]. right; left. reflexivity.
    + rewrite integer_part36_0. eexists. split; [reflexivity|]. right; right.
      exists (rev r). split; [reflexivity|]. apply Forall_rev, Hr.
  - rewrite integer_part36_0. eexists. split; [reflexivity|]. left. reflexivity.
Qed.

Lemma chars36_lower (d : Z) : digit_ok d -> is_base36_lower (chars36 d) = true.
Proof.
  unfold digit_ok, chars36, is_base36_lower. intros H.
  destruct (d <? 10) eqn:E; [apply Z.ltb_lt in E|apply Z.ltb_ge in E]; apply orb_true_iff;
    [left|right]; apply andb_true_iff; split; apply Z.leb_le; lia.
Qed.

Lemma forallb_firstn {A} (f : A -> bool) (n : nat) (l : list A) :
  forallb f l = true -> forallb f (firstn n l) = true.
Proof.
  revert l. induction n as [|n IH]; intros [|a l] H; cbn in *; try reflexivity.
  apply andb_true_iff in H. destruct H as [H1 H2]. rewrite H1, IH by exact H2. reflexivity.
Qed.

(** Claim C10. For every double [draw] of [[0, 1)] (every value
    [Math.random()] can return), [toString(36)] terminates and the room code
    has at most 6 characters, each an uppercase base-36 digit ([0-9A-Z]).
    Some draws give shorter codes: 0 gives the empty code and 1/2 gives "I".
    The round-to-even step of [DoubleToRadixCString] decides the last digit:
    the draw 4503599554958117 / 2^52 gives "ZZZZZ1". *)
Theorem generateRoomCode_shape :
  (forall draw, 0 <= draw < dbl_one -> is_double draw = true ->
     (exists s, number_toString36 draw = Some s) /\
     (List.length (generateRoomCode draw) <= 6)%nat /\
     forallb is_base36_upper (generateRoomCode draw) = true) /\
  generateRoomCode 0 = [] /\
  generateRoomCode (dbl_one / 2) = js "I" /\
  generateRoomCode (4503599554958117 * 2 ^ 1022) = js "ZZZZZ1".
Proof.
  split; [|split; [reflexivity|split; vm_compute; reflexivity]].
  intros draw Hrange Hd. unfold generateRoomCode, number_toString36.
  destruct (draw =? 0) eqn:E0.
  { split; [eexists; reflexivity|]. split; vm_compute; [lia|reflexivity]. }
  apply Z.eqb_neq in E0.
  destruct (double_to_radix36_below_one draw ltac:(lia) Hd) as (s & Es & Hs).
  rewrite Es. split; [eexists; reflexivity|].
  assert (Hlow : forallb is_base36_lower (skipn 2 s) = true).
  { destruct Hs as [-> | [-> | (r & -> & Hr)]]; [reflexivity|reflexivity|].
    cbn [skipn]. apply forallb_forall. intros x Hx. apply in_map_iff in Hx.
    destruct Hx as (d & <- & Hd'). apply chars36_lower. rewrite Forall_forall in Hr. auto. }
  destruct (js_substring_2_8 s) as (n & Hn & ->).
  assert (Hl : forallb is_base36_lower (firstn n (skipn 2 s)) = true) by (apply forallb_firstn, Hlow).
  rewrite (toUpperCase_base36 _ Hl). split.
  - rewrite length_map, length_firstn. lia.
  - apply forallb_forall. intros x Hx. apply in_map_iff in Hx. destruct Hx as (y & <- & Hy).
    apply ascii_upper_base36. rewrite forallb_forall in Hl. auto.
Qed.

(* ========================================================================= *)
(** * Further properties of the component and of the schema *)

(* ------------------------------------------------------------------------- *)
(** ** Input validation: [!s.trim()] *)

(** Validation of the host and join actions: a player name made only of
    white space (possibly empty) is refused before any store request, the
    client and the world (store and network) untouched; the same for the
    room code of a join once the name passes. *)
Theorem validation_rejects_whitespace_only (k : Z) (c : client) (w : world) :
  (blank (playerName c) = true <-> forallb is_ws (playerName c) = true) /\
  (blank (roomCode c) = true <-> forallb is_ws (roomCode c) = true) /\
  (forallb is_ws (playerName c) = true ->
   hostRoom k c w = (c, w, [PlayerNameRequiredHost]) /\
   joinRoom c w = (c, w, [PlayerNameRequiredJoin])) /\
  (forallb is_ws (playerName c) = false -> forallb is_ws (roomCode c) = true ->
   joinRoom c w = (c, w, [RoomCodeRequired])).
Proof.
  split; [apply blank_iff_all_ws|]. split; [apply blank_iff_all_ws|].
  split.
  - intros H. apply blank_iff_all_ws in H. unfold hostRoom, joinRoom. rewrite H. split; reflexivity.
  - intros Hn Hc. apply blank_iff_all_ws in Hc.
    assert (Hn' : blank (playerName c) = false).
    { destruct (blank (playerName c)) eqn:E; [|reflexivity].
      apply blank_iff_all_ws in E. congruence. }
    unfold joinRoom. rewrite Hn', Hc. reflexivity.
Qed.

(* ------------------------------------------------------------------------- *)
(** ** Failure paths of hostRoom *)

(** A generated code that is already taken: the room insert is refused by
    the UNIQUE constraint, the host action reports "Failed to create room",
    leaves the store as it was and the client as it was; no other code is
    tried. *)
Theorem hostRoom_code_collision (k : Z) (c : client) (w : world) :
  loading c = false ->
  blank (playerName c) = false ->
  goes_through w 0 = true ->
  existsb (fun r => jsstr_eqb (code r) (generateRoomCode k)) (rooms (store w)) = true ->
  let '(c', w', t) := hostRoom k c w in
  c' = c /\ store w' = store w /\ t = [CreateFailed].
Proof.
  intros Hload Hname H0 Htaken.
  unfold hostRoom. rewrite Hname, (call_through w _ H0).
  unfold insert_room. rewrite Htaken. cbn [fst snd].
  rewrite (set_loading_false_true c Hload). repeat split; reflexivity.
Qed.

(** Witness: the store already holds room "I" and the draw 1/2 gives "I". *)
Lemma hostRoom_code_collision_witness :
  let w := mkWorld (mkDb [mkRoom 1 (js "I") (js "Alice") 5 100] [mkPlayer 2 1 (js "Alice") true 101] 3 102) [] in
  let '(c', w', t) := hostRoom (dbl_one / 2) carol_joining w in
  c' = carol_joining /\ store w' = store w /\ t = [CreateFailed].
Proof.
  apply (hostRoom_code_collision (dbl_one / 2) carol_joining); reflexivity.
Defined.

(** The room insert goes through but the host's player insert fails: the
    new Room row stays in the store with no Player row, the Player table is
    as before, and the client stays where it was with "Failed to create
    room" (the two inserts are not one transaction). *)
Theorem hostRoom_orphan_room (k : Z) (c : client) (w : world) :
  loading c = false ->
  blank (playerName c) = false ->
  goes_through w 0 = true ->
  goes_through w 1 = false ->
  existsb (fun r => jsstr_eqb (code r) (generateRoomCode k)) (rooms (store w)) = false ->
  exists r : room,
    let '(c', w', t) := hostRoom k c w in
    rooms (store w') = rooms (store w) ++ [r] /\ code r = generateRoomCode k /\
    players (store w') = players (store w) /\
    (forall p, In p (players (store w')) -> In p (players (store w))) /\
    c' = c /\ t = [CreateFailed].
Proof.
  intros Hload Hname H0 H1 Hfresh.
  unfold hostRoom. rewrite Hname, (call_through w _ H0).
  unfold insert_room. rewrite Hfresh. cbn [fst snd].
  rewrite call_fails by (rewrite goes_through_tl; exact H1). cbn [store rooms players].
  rewrite (set_loading_false_true c Hload).
  eexists. repeat split; auto.
Qed.

(** Witness: Carol hosts on an empty store and the second request fails. *)
Lemma hostRoom_orphan_room_witness :
  exists r : room,
    let '(c', w', t) := hostRoom (dbl_one / 2) carol_joining (mkWorld (mkDb [] [] 1 100) [true; false]) in
    rooms (store w') = [] ++ [r] /\ code r = generateRoomCode (dbl_one / 2) /\
    players (store w') = [] /\
    (forall p, In p (players (store w')) -> In p []) /\
    c' = carol_joining /\ t = [CreateFailed].
Proof.
  apply (hostRoom_orphan_room (dbl_one / 2) carol_joining (mkWorld (mkDb [] [] 1 100) [true; false]));
    reflexivity.
Defined.

(* ------------------------------------------------------------------------- *)
(** ** Successful join *)

(** [rooms.code] is UNIQUE and [players.room_id] references an existing
    room. *)
Definition db_wf (d : db) : Prop :=
  NoDup (map code (rooms d)) /\
  (forall p, In p (players d) -> exists r, In r (rooms d) /\ room_id r = player_room_id p).

Lemma select_room_by_code_snd (d : db) (cd : jsstring) : snd (select_room_by_code d cd) = d.
Proof.
  unfold select_room_by_code. destruct (filter _ _) as [|r [|r' l]]; reflexivity.
Qed.

Lemma filter_code_unique (l : list room) (r : room) (x : jsstring) :
  NoDup (map code l) -> In r l -> code r = x ->
  filter (fun q => jsstr_eqb (code q) x) l = [r].
Proof.
  induction l as [|q l IH]; intros Hnd Hin Hx; [destruct Hin|].
  cbn [map] in Hnd. apply NoDup_cons_iff in Hnd. destruct Hnd as [Hq Hnd].
  cbn [filter]. destruct Hin as [<- | Hin].
  - rewrite Hx, jsstr_eqb_refl. f_equal. apply filter_none.
    intros y Hy. apply jsstr_eqb_neq. intros Hyx. apply Hq.
    rewrite Hx, <- Hyx. apply in_map, Hy.
  - destruct (jsstr_eqb (code q) x) eqn:E.
    + apply jsstr_eqb_eq in E. exfalso. apply Hq. rewrite E, <- Hx. apply in_map, Hin.
    + exact (IH Hnd Hin Hx).
Qed.

(** In a store satisfying the schema's constraints, a join whose
    uppercased code is the code of the room [r], whose three requests go
    through and whose count query finds fewer than [max_players r] rows,
    appends exactly one Player row, not a host, carrying the joiner's name
    and [r]'s id; the Room table is unchanged, the room's player count grows
    by one, and the client enters the room view on [r]. *)
Theorem joinRoom_success (c : client) (w : world) (r : room) :
  db_wf (store w) ->
  blank (playerName c) = false ->
  blank (roomCode c) = false ->
  In r (rooms (store w)) ->
  code r = toUpperCase (roomCode c) ->
  goes_through w 0 = true -> goes_through w 1 = true -> goes_through w 2 = true ->
  Z.of_nat (List.length (filter (in_room (room_id r)) (players (store w)))) < max_players r ->
  exists p : player,
    let '(c', w', t) := joinRoom c w in
    rooms (store w') = rooms (store w) /\
    players (store w') = players (store w) ++ [p] /\
    is_host p = false /\ player_room_id p = room_id r /\ name p = playerName c /\
    List.length (filter (in_room (room_id r)) (players (store w'))) =
      S (List.length (filter (in_room (room_id r)) (players (store w)))) /\
    currentView c' = InRoomView /\ currentRoom c' = Some r /\ currentPlayer c' = Some p /\
    t = [JoinedRoom (toUpperCase (roomCode c))].
Proof.
  intros [Hcodes Hfk] Hname Hcode Hin Hx H0 H1 H2 Hfree.
  unfold joinRoom. rewrite Hname, Hcode.
  rewrite (call_through w _ H0). unfold select_room_by_code.
  rewrite (filter_code_unique _ r _ Hcodes Hin Hx). cbn [fst snd].
  rewrite call_through by (rewrite goes_through_tl; exact H1).
  unfold select_players_in. cbn [fst snd store].
  replace (Z.of_nat (List.length (filter (in_room (room_id r)) (players (store w))))
             >=? max_players r) with false by (symmetry; rewrite Z.geb_leb; apply Z.leb_gt; lia).
  rewrite call_through by (rewrite !goes_through_tl; exact H2). cbn [store].
  unfold insert_player.
  assert (Hex : existsb (room_eqb_id (room_id r)) (rooms (store w)) = true).
  { apply existsb_exists. exists r. split; [exact Hin|]. apply Z.eqb_refl. }
  rewrite Hex. cbn [fst snd rooms players].
  eexists. repeat split.
  cbn [store players]. rewrite filter_app, length_app. cbn. unfold in_room at 2. cbn. rewrite Z.eqb_refl.
  cbn. lia.
Qed.

(** Witness: Carol joins Alice's room "ABC123" (one player of five) with
    the code "abc123". *)
Definition alice_only_store : db := mkDb [alice_room] [alice_p] 3 102.

Lemma joinRoom_success_witness :
  exists p : player,
    let c := set_roomCode (js "abc123") carol_joining in
    let '(c', w', t) := joinRoom c (mkWorld alice_only_store []) in
    rooms (store w') = rooms alice_only_store /\
    players (store w') = players alice_only_store ++ [p] /\
    is_host p = false /\ player_room_id p = room_id alice_room /\ name p = playerName c /\
    List.length (filter (in_room (room_id alice_room)) (players (store w'))) =
      S (List.length (filter (in_room (room_id alice_room)) (players alice_only_store))) /\
    currentView c' = InRoomView /\ currentRoom c' = Some alice_room /\ currentPlayer c' = Some p /\
    t = [JoinedRoom (toUpperCase (roomCode c))].
Proof.
  apply (joinRoom_success (set_roomCode (js "abc123") carol_joining) (mkWorld alice_only_store [])
           alice_room); try reflexivity.
  - split; [repeat constructor; intros []|].
    intros p [<- | []]. exists alice_room. split; [left|]; reflexivity.
  - left. reflexivity.
Defined.

(* ------------------------------------------------------------------------- *)
(** ** The capacity check and the insert are separate requests *)

(** [joinRoom] up to and including the capacity check: either the action
    has finished, or the check passed for the looked-up room. *)
Definition joinRoom_check (c : client) (w : world)
  : (client * world * list toast) + (room * world) :=
  if blank (playerName c) then inl (c, w, [PlayerNameRequiredJoin])
  else if blank (roomCode c) then inl (c, w, [RoomCodeRequired])
  else
    let c1 := set_loading true c in
    let (r1, w1) := call w (fun d => select_room_by_code d (toUpperCase (roomCode c))) in
    match r1 with
    | Err _ => inl (set_loading false c1, w1, [RoomNotFound])
    | Ok roomData =>
        let (r2, w2) := call w1 (fun d => select_players_in d (room_id roomData)) in
        match r2 with
        | Err _ => inl (set_loading false c1, w2, [JoinFailed])
        | Ok existingPlayers =>
            if Z.of_nat (List.length existingPlayers) >=? max_players roomData then
              inl (set_loading false c1, w2, [RoomFull])
            else inr (roomData, w2)
        end
    end.

(** The rest of [joinRoom], after the [await] of the insert request. *)
Definition joinRoom_insert (c : client) (roomData : room) (w2 : world)
  : client * world * list toast :=
  let c1 := set_loading true c in
  let (r3, w3) := call w2 (fun d => insert_player d (room_id roomData) (playerName c) false) in
  match r3 with
  | Err _ => (set_loading false c1, w3, [JoinFailed])
  | Ok playerData =>
      (set_loading false (enter_room roomData playerData c1), w3,
       [JoinedRoom (toUpperCase (roomCode c))])
  end.

Lemma joinRoom_split (c : client) (w : world) :
  joinRoom c w =
  match joinRoom_check c w with inl o => o | inr (rd, w2) => joinRoom_insert c rd w2 end.
Proof.
  unfold joinRoom, joinRoom_check, joinRoom_insert.
  destruct (blank (playerName c)); [reflexivity|]. destruct (blank (roomCode c)); [reflexivity|].
  destruct (call w _) as [[rd|e1] w1]; [|reflexivity].
  destruct (call w1 _) as [[ex|e2] w2]; [|reflexivity].
  destruct (_ >=? _); reflexivity.
Qed.

Lemma call_net_nil {A} (w : world) (op : db -> resp A * db) :
  net w = [] -> call w op = (fst (op (store w)), mkWorld (snd (op (store w))) []).
Proof.
  intros H. unfold call. rewrite H. destruct (op (store w)); reflexivity.
Qed.

Lemma filter_in_room_app_other (rid : Z) (l : list player) (p : player) :
  player_room_id p = rid ->
  List.length (filter (in_room rid) (l ++ [p])) = S (List.length (filter (in_room rid) l)).
Proof.
  intros Hp. rewrite filter_app, length_app. cbn. unfold in_room at 2.
  rewrite Hp, Z.eqb_refl. cbn. lia.
Qed.

(** The capacity check is advisory: when a room has one free seat and two
    clients both pass the check before either inserts, both inserts succeed
    and the room ends with [max_players + 1] players. [joinRoom] is exactly
    the check followed by the insert ([joinRoom_split]). *)
Theorem joinRoom_capacity_race (cA cB : client) (w : world) (r : room) :
  db_wf (store w) ->
  net w = [] ->
  blank (playerName cA) = false -> blank (roomCode cA) = false ->
  blank (playerName cB) = false -> blank (roomCode cB) = false ->
  In r (rooms (store w)) ->
  code r = toUpperCase (roomCode cA) -> code r = toUpperCase (roomCode cB) ->
  Z.of_nat (List.length (filter (in_room (room_id r)) (players (store w)))) + 1 = max_players r ->
  match joinRoom_check cA w with
  | inr (rA, wA) =>
      match joinRoom_check cB wA with
      | inr (rB, wB) =>
          let '(cA', w1, _) := joinRoom_insert cA rA wB in
          let '(cB', w2, _) := joinRoom_insert cB rB w1 in
          currentView cA' = InRoomView /\ currentView cB' = InRoomView /\
          Z.of_nat (List.length (filter (in_room (room_id r)) (players (store w2)))) =
            max_players r + 1
      | inl _ => False
      end
  | inl _ => False
  end.
Proof.
  intros [Hcodes Hfk] Hnet HnA HcA HnB HcB Hin HxA HxB Hcount.
  assert (Hex : existsb (room_eqb_id (room_id r)) (rooms (store w)) = true).
  { apply existsb_exists. exists r. split; [exact Hin|]. apply Z.eqb_refl. }
  assert (Hfree : (Z.of_nat (List.length (filter (in_room (room_id r)) (players (store w))))
                   >=? max_players r) = false)
    by (rewrite Z.geb_leb; apply Z.leb_gt; lia).
  unfold joinRoom_check, joinRoom_insert. rewrite HnA, HcA, HnB, HcB.
  rewrite (call_net_nil w _ Hnet). unfold select_room_by_code at 1.
  rewrite (filter_code_unique _ r _ Hcodes Hin HxA). cbn [fst snd].
  rewrite call_net_nil by reflexivity. cbn [select_players_in fst snd store]. rewrite !select_room_by_code_snd, Hfree.
  rewrite call_net_nil by reflexivity. cbn [store]. unfold select_room_by_code.
  rewrite (filter_code_unique _ r _ Hcodes Hin HxB). cbn [fst snd].
  rewrite call_net_nil by reflexivity. cbn [select_players_in fst snd store]. rewrite Hfree.
  rewrite call_net_nil by reflexivity. cbn [store]. unfold insert_player at 1. rewrite Hex.
  cbn [fst snd].
  rewrite call_net_nil by reflexivity. cbn [store]. unfold insert_player. cbn. rewrite Hex.
  cbn. rewrite Hex. cbn. split; [reflexivity|]. split; [reflexivity|].
  rewrite <- app_assoc, filter_app, length_app. cbn. unfold in_room at 2 3. rewrite !Z.eqb_refl.
  cbn. lia.
Qed.

(** Witness: Bob and Carol both join a room of capacity 2 that holds only
    Alice. *)
Definition alice_room_of_two : room := mkRoom 1 (js "ABC123") (js "Alice") 2 100.
Definition two_seat_store : db := mkDb [alice_room_of_two] [alice_p] 3 102.

Lemma joinRoom_capacity_race_witness :
  let cA := set_roomCode (js "ABC123") carol_joining in
  let cB := set_roomCode (js "abc123") (onPlayerNameChange (js "Dave") carol_joining) in
  match joinRoom_check cA (mkWorld two_seat_store []) with
  | inr (rA, wA) =>
      match joinRoom_check cB wA with
      | inr (rB, wB) =>
          let '(cA', w1, _) := joinRoom_insert cA rA wB in
          let '(cB', w2, _) := joinRoom_insert cB rB w1 in
          currentView cA' = InRoomView /\ currentView cB' = InRoomView /\
          Z.of_nat (List.length (filter (in_room (room_id alice_room_of_two)) (players (store w2)))) =
            max_players alice_room_of_two + 1
      | inl _ => False
      end
  | inl _ => False
  end.
Proof.
  apply (joinRoom_capacity_race (set_roomCode (js "ABC123") carol_joining)
           (set_roomCode (js "abc123") (onPlayerNameChange (js "Dave") carol_joining))
           (mkWorld two_seat_store []) alice_room_of_two); try reflexivity.
  - split; [repeat constructor; intros []|].
    intros p [<- | []]. exists alice_room_of_two. split; [left|]; reflexivity.
  - left. reflexivity.
Defined.

(* ------------------------------------------------------------------------- *)
(** ** Invariants of the client state *)

Lemma call_insert_player_ok (w : world) (rid : Z) (n : jsstring) (h : bool) (p : player) (w' : world) :
  call w (fun d => insert_player d rid n h) = (Ok p, w') -> player_room_id p = rid /\ is_host p = h.
Proof.
  unfold call, insert_player.
  destruct (net w) as [|[|] rest]; try discriminate;
    destruct (existsb (room_eqb_id rid) (rooms (store w))); try discriminate;
    intros E; injection E as <- _; split; reflexivity.
Qed.

(** Outcome of hostRoom and joinRoom on the client: the fields other than
    [loading] unchanged, or the room view entered on a room and a player of
    that room. *)
Definition enters_or_keeps (c c' : client) : Prop :=
  (currentView c' = currentView c /\ roomCode c' = roomCode c /\ currentRoom c' = currentRoom c /\
   currentPlayer c' = currentPlayer c /\ players_ c' = players_ c) \/
  (exists r p, player_room_id p = room_id r /\ currentView c' = InRoomView /\
   roomCode c' = roomCode c /\ currentRoom c' = Some r /\ currentPlayer c' = Some p /\
   players_ c' = players_ c).

Lemma hostRoom_enters_or_keeps (k : Z) (c : client) (w : world) :
  enters_or_keeps c (fst (fst (hostRoom k c w))).
Proof.
  unfold hostRoom. destruct (blank (playerName c)); [left; repeat split; reflexivity|].
  destruct (call w _) as [[rd|e1] w1]; [|left; destruct c; repeat split; reflexivity].
  destruct (call w1 _) as [[pd|e2] w2] eqn:E2; [|left; destruct c; repeat split; reflexivity].
  apply call_insert_player_ok in E2. right. exists rd, pd.
  destruct c; repeat split; cbn; tauto.
Qed.

Lemma joinRoom_enters_or_keeps (c : client) (w : world) :
  enters_or_keeps c (fst (fst (joinRoom c w))).
Proof.
  unfold joinRoom. destruct (blank (playerName c)); [left; repeat split; reflexivity|].
  destruct (blank (roomCode c)); [left; repeat split; reflexivity|].
  destruct (call w _) as [[rd|e1] w1]; [|left; destruct c; repeat split; reflexivity].
  destruct (call w1 _) as [[ex|e2] w2]; [|left; destruct c; repeat split; reflexivity].
  destruct (_ >=? _); [left; destruct c; repeat split; reflexivity|].
  destruct (call w2 _) as [[pd|e3] w3] eqn:E3; [|left; destruct c; repeat split; reflexivity].
  apply call_insert_player_ok in E3. right. exists rd, pd.
  destruct c; repeat split; cbn; tauto.
Qed.

Lemma leaveRoom_client (c : client) (w : world) :
  fst (fst (leaveRoom c w)) = c \/ fst (fst (leaveRoom c w)) = back_to_landing c.
Proof.
  unfold leaveRoom. destruct (currentPlayer c); [|left; reflexivity].
  destruct (currentRoom c); [|left; reflexivity].
  destruct (call w _). right. reflexivity.
Qed.

Lemma fetchPlayers_client (c : client) (w : world) :
  fst (fetchPlayers c w) = c \/ exists ps, fst (fetchPlayers c w) = set_players ps c.
Proof.
  unfold fetchPlayers. destruct (currentRoom c); [|left; reflexivity].
  destruct (call w _) as [[ps|e] w1]; [right; exists ps|left]; reflexivity.
Qed.

Definition client_consistent (c : client) : Prop :=
  (currentView c = InRoomView <-> currentRoom c <> None) /\
  (currentRoom c = None <-> currentPlayer c = None) /\
  (forall r p, currentRoom c = Some r -> currentPlayer c = Some p -> player_room_id p = room_id r).

Lemma enters_or_keeps_consistent (c c' : client) :
  enters_or_keeps c c' -> client_consistent c -> client_consistent c'.
Proof.
  intros [(Hv & _ & Hr & Hp & _) | (r & p & Hrp & Hv & _ & Hr & Hp & _)] (A & B & C).
  - unfold client_consistent. rewrite Hv, Hr, Hp. auto.
  - unfold client_consistent. rewrite Hv, Hr, Hp. split; [|split].
    + split; [discriminate|reflexivity].
    + split; discriminate.
    + intros r' p' E1 E2. injection E1 as <-. injection E2 as <-. exact Hrp.
Qed.

(** In every reachable state the client's fields agree: the room view is
    shown exactly when a room is held, a room is held exactly when a player
    is, the held player belongs to the held room, and the entered room code
    is in upper case (so the uppercasing in joinRoom's lookup changes
    nothing for a code typed into the field). *)
Theorem reachable_client_consistent (s : client * world) :
  reachable s ->
  client_consistent (fst s) /\ toUpperCase (roomCode (fst s)) = roomCode (fst s).
Proof.
  intros Hreach. induction Hreach as [w|s s' _ [IHc IHu] Hstep].
  - split; [|reflexivity]. cbn. split; [|split].
    + split; [discriminate|]. intros H. exfalso. apply H. reflexivity.
    + split; reflexivity.
    + intros r p E. discriminate.
  - destruct Hstep as [s0 c w|s0 c w|k c w c' w' t E|c w c' w' t E|c w c' w' t E|c w d|c w|c w|rid d c w];
      cbn [fst] in *.
    + destruct c; split; [exact IHc|exact IHu].
    + destruct c; split; [exact IHc|]. cbn. apply toUpperCase_idem.
    + pose proof (hostRoom_enters_or_keeps k c w) as H. rewrite E in H. cbn in H.
      split; [exact (enters_or_keeps_consistent c c' H IHc)|].
      destruct H as [(_ & Hc & _) | (? & ? & _ & _ & Hc & _)]; rewrite Hc; exact IHu.
    + pose proof (joinRoom_enters_or_keeps c w) as H. rewrite E in H. cbn in H.
      split; [exact (enters_or_keeps_consistent c c' H IHc)|].
      destruct H as [(_ & Hc & _) | (? & ? & _ & _ & Hc & _)]; rewrite Hc; exact IHu.
    + pose proof (leaveRoom_client c w) as H. rewrite E in H. cbn in H.
      destruct H as [-> | ->]; [split; assumption|].
      split; [|reflexivity]. split; [|split].
      * split; [discriminate|]. intros H. exfalso. apply H. reflexivity.
      * split; reflexivity.
      * intros r p Hr. discriminate.
    + split; assumption.
    + split; [|reflexivity]. split; [|split].
      * split; [discriminate|]. intros H. exfalso. apply H. reflexivity.
      * split; reflexivity.
      * intros r p Hr. discriminate.
    + destruct (fetchPlayers_client c w) as [-> | (ps & ->)]; [split; assumption|].
      destruct c; split; [exact IHc|exact IHu].
    + destruct c; split; [exact IHc|exact IHu].
Qed.

(** Witness: Bob types his name and the code "abc123" and joins Alice's
    room; the client is in the room view with the code "ABC123". *)
Definition bob_joining : client :=
  onRoomCodeChange (js "abc123") (onPlayerNameChange (js "Bob") initial_client).

Definition bob_joined : client * world := fst (joinRoom bob_joining (mkWorld alice_only_store [])).

Lemma reachable_client_consistent_witness :
  currentView (fst bob_joined) = InRoomView /\ roomCode (fst bob_joined) = js "ABC123" /\
  client_consistent (fst bob_joined) /\
  toUpperCase (roomCode (fst bob_joined)) = roomCode (fst bob_joined).
Proof.
  split; [vm_compute; reflexivity|]. split; [vm_compute; reflexivity|].
  apply (reachable_client_consistent bob_joined).
  assert (E : joinRoom bob_joining (mkWorld alice_only_store []) =
              (fst bob_joined, snd bob_joined, snd (joinRoom bob_joining (mkWorld alice_only_store []))))
    by (vm_compute; reflexivity).
  rewrite (surjective_pairing bob_joined).
  apply (reach_step (bob_joining, mkWorld alice_only_store [])).
  - apply (reach_step (onPlayerNameChange (js "Bob") initial_client, mkWorld alice_only_store [])).
    + apply (reach_step (initial_client, mkWorld alice_only_store [])).
      * apply reach_init.
      * apply step_name_input.
    + apply step_code_input.
  - exact (step_join _ _ _ _ _ E).
Defined.


(* ------------------------------------------------------------------------- *)
(** ** Entering a room does not load the roster *)

(** Neither hostRoom nor joinRoom queries the roster, and the subscription
    only refreshes it on a later change event: from a client with an empty
    roster (the initial state, or Landing after a leave), a join leaves the
    roster empty, and a successful host shows an empty roster while the
    store already holds the host's own row in the new room. *)
Theorem entering_room_does_not_load_roster (k : Z) (c : client) (w : world) :
  players_ c = [] ->
  blank (playerName c) = false ->
  goes_through w 0 = true ->
  goes_through w 1 = true ->
  existsb (fun r => jsstr_eqb (code r) (generateRoomCode k)) (rooms (store w)) = false ->
  players_ (fst (fst (joinRoom c w))) = [] /\
  let '(c', w', _) := hostRoom k c w in
  players_ c' = [] /\
  exists r p, currentRoom c' = Some r /\ currentPlayer c' = Some p /\
              In p (players (store w')) /\ player_room_id p = room_id r.
Proof.
  intros Hempty Hname H0 H1 Hfresh.
  split; [rewrite joinRoom_keeps_roster; exact Hempty|].
  unfold hostRoom. rewrite Hname.
  rewrite (call_through w _ H0). unfold insert_room. rewrite Hfresh. cbn [fst snd].
  set (r := mkRoom (next_id (store w)) (generateRoomCode k) (playerName c) 5 (clock (store w))).
  rewrite call_through by (rewrite goes_through_tl; exact H1).
  unfold insert_player. cbn [store rooms].
  rewrite (existsb_room_id_app (rooms (store w)) r). cbn.
  split; [destruct c; cbn in *; exact Hempty|].
  eexists r, _. split; [reflexivity|]. split; [reflexivity|]. split; [|reflexivity].
  apply in_or_app. right. left. reflexivity.
Qed.

(** Witness: Alice hosts from the initial client. *)
Lemma entering_room_does_not_load_roster_witness :
  let c := onPlayerNameChange (js "Alice") initial_client in
  let w := mkWorld (mkDb [] [] 1 100) [] in
  players_ (fst (fst (joinRoom c w))) = [] /\
  let '(c', w', _) := hostRoom (dbl_one / 2) c w in
  players_ c' = [] /\
  exists r p, currentRoom c' = Some r /\ currentPlayer c' = Some p /\
              In p (players (store w')) /\ player_room_id p = room_id r.
Proof.
  apply (entering_room_does_not_load_roster (dbl_one / 2) (onPlayerNameChange (js "Alice") initial_client)
           (mkWorld (mkDb [] [] 1 100) [])); vm_compute; reflexivity.
Defined.

(* ------------------------------------------------------------------------- *)
(** ** The in-memory lobby (src/src/components/GameLobby.tsx) *)

(** The earlier version of the component keeps the room in local state
    only: no store, no subscription. *)
Module LocalLobby.

Record player := mkPlayer { id : jsstring; name : jsstring; isHost : bool }.

(** [Room]; its [id] field is [room_id] here, [id] naming the player's. *)
Record room := mkRoom {
  room_id : jsstring;
  code : jsstring;
  host : jsstring;
  players : list player;
  maxPlayers : Z
}.

Record client := mkClient {
  currentView : view;
  playerName : jsstring;
  roomCode : jsstring;
  currentRoom : option room;
  currentPlayer : option player
}.

Definition initial_client : client := mkClient Landing [] [] None None.

Inductive toast :=
| PlayerNameRequiredHost
| PlayerNameRequiredJoin
| RoomCodeRequired
| RoomCreated (c : jsstring)
| JoinedRoom (c : jsstring)
| LeftRoom
| RoomCancelled
| NotEnoughPlayers.

Inductive start_outcome := NavigateGame | StartToast (t : toast) | NoEffect.

Definition enter (r : room) (p : player) (c : client) : client :=
  mkClient InRoomView (playerName c) (roomCode c) (Some r) (Some p).

Definition to_landing (c : client) : client := mkClient Landing (playerName c) [] None None.

Definition onPlayerNameChange (s : jsstring) (c : client) : client :=
  mkClient (currentView c) s (roomCode c) (currentRoom c) (currentPlayer c).

Definition onRoomCodeChange (s : jsstring) (c : client) : client :=
  mkClient (currentView c) (playerName c) (toUpperCase s) (currentRoom c) (currentPlayer c).

(** [hostRoom]; [k] is the random draw of [generateRoomCode]. *)
Definition hostRoom (k : Z) (c : client) : client * list toast :=
  if blank (playerName c) then (c, [PlayerNameRequiredHost])
  else
    let newRoomCode := generateRoomCode k in
    let p := mkPlayer (js "1") (playerName c) true in
    let r := mkRoom newRoomCode newRoomCode (playerName c) [p] 5 in
    (enter r p c, [RoomCreated newRoomCode]).

(** [joinRoom]; [now] is [Date.now().toString()]. The joined room is made
    up locally ("Simulate joining room"). *)
Definition joinRoom (now : jsstring) (c : client) : client * list toast :=
  if blank (playerName c) then (c, [PlayerNameRequiredJoin])
  else if blank (roomCode c) then (c, [RoomCodeRequired])
  else
    let p := mkPlayer now (playerName c) false in
    let r := mkRoom (roomCode c) (roomCode c) (js "Host Player")
                    [mkPlayer (js "1") (js "Host Player") true; p] 5 in
    (enter r p c, [JoinedRoom (roomCode c)]).

Definition leaveRoom (c : client) : client * list toast := (to_landing c, [LeftRoom]).

Definition cancelRoom (c : client) : client * list toast :=
  match currentPlayer c with
  | Some p => if isHost p then (to_landing c, [RoomCancelled]) else (c, [])
  | None => (c, [])
  end.

Definition startGame (c : client) : start_outcome :=
  match currentRoom c, currentPlayer c with
  | Some r, Some p =>
      if isHost p then
        if Z.of_nat (List.length (players r)) <? 2 then StartToast NotEnoughPlayers else NavigateGame
      else NoEffect
  | _, _ => NoEffect
  end.

Inductive step : client -> client -> Prop :=
| step_name s c : step c (onPlayerNameChange s c)
| step_code s c : step c (onRoomCodeChange s c)
| step_host k c : step c (fst (hostRoom k c))
| step_join now c : step c (fst (joinRoom now c))
| step_leave c : step c (fst (leaveRoom c))
| step_cancel c : step c (fst (cancelRoom c)).

Inductive reachable : client -> Prop :=
| reach_init : reachable initial_client
| reach_step c c' : reachable c -> step c c' -> reachable c'.

Definition host_alone (c : client) : Prop :=
  forall p, currentPlayer c = Some p -> isHost p = true ->
  exists r, currentRoom c = Some r /\ List.length (players r) = 1%nat.

(** In the in-memory lobby the game can never be started: a host's room
    only ever holds the host (nothing adds players to it), and a joiner,
    whose made-up room holds two players, is never the host, so [startGame]
    never navigates from a reachable state. *)
Theorem startGame_never_navigates (c : client) :
  reachable c -> host_alone c /\ startGame c <> NavigateGame.
Proof.
  intros Hreach.
  assert (Hinv : host_alone c).
  { induction Hreach as [|c c' _ IH Hstep].
    - intros p E. discriminate.
    - destruct Hstep as [s c|s c|k c|now c|c|c]; cbn [fst].
      + exact IH.
      + exact IH.
      + unfold hostRoom. destruct (blank (playerName c)); [exact IH|].
        intros p E _. cbn in E. injection E as <-. eexists. split; reflexivity.
      + unfold joinRoom. destruct (blank (playerName c)); [exact IH|].
        destruct (blank (roomCode c)); [exact IH|].
        intros p E Hh. cbn in E. injection E as <-. discriminate.
      + intros p E. discriminate.
      + unfold cancelRoom. destruct (currentPlayer c) as [q|] eqn:Eq; [|exact IH].
        destruct (isHost q); [intros p E; discriminate|exact IH]. }
  split; [exact Hinv|].
  unfold startGame. destruct (currentRoom c) as [r|] eqn:Er; [|discriminate].
  destruct (currentPlayer c) as [p|] eqn:Ep; [|discriminate].
  destruct (isHost p) eqn:Eh; [|discriminate].
  destruct (Hinv p Ep Eh) as (r' & Er' & Hlen). rewrite Er in Er'. injection Er' as <-.
  rewrite Hlen. discriminate.
Qed.

(** Witness: the state right after "Alice" hosts. *)
Lemma startGame_never_navigates_witness :
  let c := fst (hostRoom 0 (onPlayerNameChange (js "Alice") initial_client)) in
  host_alone c /\ startGame c <> NavigateGame.
Proof.
  apply startGame_never_navigates.
  eapply reach_step; [eapply reach_step; [apply reach_init|apply (step_name (js "Alice"))]|].
  apply step_host.
Defined.

End LocalLobby.
